(** * autobuild: the [push] planning pipeline

    A shallow embedding of [state.ValidTPath], [state.LoadState],
    [state.Changed] and [cmd.runPush], together with the graph operations
    they rely on, and the properties of the rebuild planner proved over it.

    Go [int] values (package positions, release numbers, job IDs) are
    modelled as [Z]; no arithmetic other than comparison and the loop
    counter's increment is performed on them.  Go [map]s are [gmap]s,
    sets of positions are [gset]s, slices are lists. *)

From Stdlib Require Import ZArith Lia Ascii String Sorted.
From stdpp Require Import base option list gmap sets strings relations pretty.

Local Open Scope string_scope.
Local Open Scope list_scope.
Local Open Scope Z_scope.

(** ** Results and effects *)

(** A Go [(value, error)] pair; [error] values are modelled by their
    message. *)
Inductive Result (A : Type) : Type :=
  | Ok (a : A)
  | Err (e : string).
Arguments Ok {A} a.
Arguments Err {A} e.

(** [waterlog] levels: [Good*], [Info*], [Warn*], [Error*], [Debug*],
    [Fatal*] and the undecorated [Printf]/[Println]. *)
Inductive Level : Type := Good | Info | Warn | Error | Debug | Fatal | Plain.

#[global] Instance Level_eq_dec : EqDecision Level.
Proof. solve_decision. Defined.

(** The fields of [common.Package] that the pipeline reads. *)
Record Package : Type := mkPackage {
  Name : string;
  Version : string;
  Release : Z;
  BuildDeps : list string
}.

#[global] Instance Package_eq_dec : EqDecision Package.
Proof. solve_decision. Defined.

(** Directed graphs over package positions: every vertex is mapped to the
    set of its successors. *)
Abbreviation Graph := (gmap Z (gset Z)).

(** What a run does to the outside world, in order: log lines, and calls
    to the collaborators that perform I/O. *)
Inductive Event : Type :=
  | Log (l : Level) (msg : string)
  | CallLoad (kind path : string)
  | CallPublish (pkg : Package)
  | CreateFile (name : string)
  | DrawDOT (g : Graph).

(** How a computation ends: with a value, by [os.Exit], or by a run-time
    panic (index out of range). *)
Inductive Outcome (A : Type) : Type :=
  | Val (a : A)
  | Exited (code : Z)
  | Panicked.
Arguments Val {A} a.
Arguments Exited {A} code.
Arguments Panicked {A}.

(** Computations: the trace of events produced so far and the outcome. *)
Definition M (A : Type) : Type := list Event * Outcome A.

Definition ret {A} (a : A) : M A := ([], Val a).

Definition bind {A B} (m : M A) (f : A → M B) : M B :=
  match m with
  | (t, Val a) => let '(t', o) := f a in (t ++ t', o)
  | (t, Exited c) => (t, Exited c)
  | (t, Panicked) => (t, Panicked)
  end.

Notation "x <- m ;; k" := (bind m (λ x, k))
  (at level 100, m at next level, right associativity, only parsing).
Notation "m ;;; k" := (bind m (λ _, k))
  (at level 100, right associativity, only parsing).

Definition emit (e : Event) : M unit := ([e], Val tt).
Definition log (l : Level) (msg : string) : M unit := emit (Log l msg).
Definition osExit {A} (code : Z) : M A := ([], Exited code).
Definition panic {A} : M A := ([], Panicked).

(** [waterlog.Fatalf]: print, then [os.Exit(1)]. *)
Definition fatalf {A} (msg : string) : M A := log Fatal msg ;;; osExit 1.

Definition trace {A} (m : M A) : list Event := m.1.
Definition outcome {A} (m : M A) : Outcome A := m.2.

(** Slice indexing [xs[i]] with a Go [int] index: panics out of range. *)
Definition index {A} (xs : list A) (i : Z) : option A :=
  if decide (0 ≤ i) then xs !! Z.to_nat i else None.

Definition at_index {A} (xs : list A) (i : Z) : M A :=
  match index xs i with
  | Some x => ret x
  | None => panic
  end.

(** [for idx, x := range xs { s = body idx x s }], the loop state [s]
    threaded through the iterations. *)
Fixpoint range_from {A S} (body : Z → A → S → M S) (idx : Z) (xs : list A)
    (s : S) : M S :=
  match xs with
  | [] => ret s
  | x :: xs' => s' <- body idx x s ;; range_from body (idx + 1) xs' s'
  end.

Definition range {A S} (body : Z → A → S → M S) (xs : list A) (s : S) : M S :=
  range_from body 0 xs s.

(** [for _, x := range xs { body x }] for a body run for its effects only. *)
Definition for_each {A} (body : A → M unit) (xs : list A) : M unit :=
  range (λ _ x _, body x) xs tt.

Definition nl : string := String "010"%char "".

(** ** Package state (state package) *)

(** The [State] interface, as the values of its three methods. *)
Record State : Type := mkState {
  Packages : list Package;
  NameToSrcIdx : gmap string Z;
  DepGraph : Graph
}.

(** [Diff], with the fields named by the composite literals of
    [Changed]; positions and releases are Go [int]s. *)
Record Diff : Type := mkDiff {
  Idx : Z;
  OldIdx : Z;
  RelNum : Z;
  OldRelNum : Z;
  Ver : string;
  OldVer : string
}.

#[global] Instance Diff_eq_dec : EqDecision Diff.
Proof. solve_decision. Defined.

Definition dquote : string := String "034"%char "".

Definition InvalidTPathError : string :=
  "Invalid tpath! Must be in the form " +:+ dquote +:+ "[src|bin|repo]:path"
    +:+ dquote +:+ "!".

(** [strings.Split(s, sep)] for a one-byte separator: the fields between
    the occurrences of [sep], one more field than there are occurrences. *)
Fixpoint Split (s : string) (sep : ascii) : list string :=
  match s with
  | EmptyString => [EmptyString]
  | String c r =>
      if decide (c = sep) then EmptyString :: Split r sep
      else match Split r sep with
           | field :: fields => String c field :: fields
           | [] => [String c EmptyString]
           end
  end.

Definition colon : ascii := ":"%char.

(** [slices.Contains] on strings. *)
Definition Contains (xs : list string) (x : string) : bool :=
  bool_decide (x ∈ xs).

(** [ValidTPath]; [splitted[0]] always exists, [Split] never returns an
    empty slice. *)
Definition ValidTPath (tpath : string) : bool :=
  let splitted := Split tpath colon in
  if decide (2 < Z.of_nat (length splitted)) then false
  else match splitted with
       | kind :: _ => Contains ["src"; "bin"; "repo"] kind
       | [] => false
       end.

(** The job handle returned by the publisher. *)
Record Job : Type := mkJob { ID : Z }.

(** The collaborators of the pipeline, external to it: the three loaders
    of the state package, [graph.StronglyConnectedComponents] and
    [push.Publish]. *)
Class Collaborators : Type := {
  LoadSource : string → Result State;
  LoadBinary : string → Result State;
  LoadEopkgRepo : string → Result State;
  StronglyConnectedComponents : Graph → Result (list (list Z));
  Publish : Package → Result Job
}.

Section Loaders.

Context `{Collaborators}.

(** [LoadState]: the value is the Go pair [(state, err)]. *)
Definition LoadState (tpath : string) : M (Result State) :=
  if negb (ValidTPath tpath) then ret (Err InvalidTPathError)
  else
    let splitted := Split tpath colon in
    kind <- at_index splitted 0 ;;
    if decide (kind = "src") then
      path <- at_index splitted 1 ;;
      emit (CallLoad "src" path) ;;; ret (LoadSource path)
    else if decide (kind = "bin") then
      path <- at_index splitted 1 ;;
      emit (CallLoad "bin" path) ;;; ret (LoadBinary path)
    else
      path <- at_index splitted 1 ;;
      emit (CallLoad "repo" path) ;;; ret (LoadEopkgRepo path).

End Loaders.

(** The [Diff] appended for a package whose name [old] does not know: the
    composite literal sets [Idx], [RelNum] and [Ver] only, the other fields
    keep Go's zero values. *)
Definition Diff_added (idx : Z) (pkg : Package) : Diff :=
  {| Idx := idx; OldIdx := 0; RelNum := Release pkg; OldRelNum := 0;
     Ver := Version pkg; OldVer := "" |}.

(** The [Diff] appended for a package matched at [oldIdx] with [oldPkg]. *)
Definition Diff_matched (idx oldIdx : Z) (pkg oldPkg : Package) : Diff :=
  {| Idx := idx; OldIdx := oldIdx; RelNum := Release pkg;
     OldRelNum := Release oldPkg; Ver := Version pkg;
     OldVer := Version oldPkg |}.

(** One iteration of the loop of [Changed]. *)
Definition Changed_body (old : State) (idx : Z) (pkg : Package)
    (res : list Diff) : M (list Diff) :=
  match NameToSrcIdx old !! Name pkg with
  | None => ret (res ++ [Diff_added idx pkg])
  | Some oldIdx =>
      oldPkg <- at_index (Packages old) oldIdx ;;
      if bool_decide (Release oldPkg ≠ Release pkg)
         || bool_decide (Version oldPkg ≠ Version pkg)
      then ret (res ++ [Diff_matched idx oldIdx pkg oldPkg])
      else ret res
  end.

Definition Changed (old cur : State) : M (list Diff) :=
  range (Changed_body old) (Packages cur) [].

(** The zero value [common.Package{}]. *)
Definition no_package : Package :=
  {| Name := ""; Version := ""; Release := 0; BuildDeps := [] |}.

(** [GetPackage]: the package of that name and its position, or the zero
    package and -1. *)
Definition GetPackage (s : State) (name : string) : M (Package * Z) :=
  match NameToSrcIdx s !! name with
  | None => ret (no_package, -1)
  | Some idx => pkg <- at_index (Packages s) idx ;; ret (pkg, idx)
  end.

(** [GetPackageIdx]: indexing the map with a missing key gives the zero
    value. *)
Definition GetPackageIdx (s : State) (name : string) : Z :=
  default 0 (NameToSrcIdx s !! name).

(** [PackageExists]. *)
Definition PackageExists (s : State) (name : string) : bool :=
  bool_decide (is_Some (NameToSrcIdx s !! name)).

(** ** Diff classification and dependency resolution *)

Module DiffPred.

(** Modelled from the spec: the classification methods of [Diff]
    ([IsNewRel], [IsSameRel], [IsSame], [IsDowngrade]), declared beside
    [Diff] in another file of the state package.  New release: the release
    increased. *)
Definition IsNewRel (d : Diff) : bool := bool_decide (OldRelNum d < RelNum d).

(** Modelled from the spec: the release is unchanged. *)
Definition IsSameRel (d : Diff) : bool := bool_decide (RelNum d = OldRelNum d).

(** Modelled from the spec: release and version are both unchanged. *)
Definition IsSame (d : Diff) : bool :=
  bool_decide (RelNum d = OldRelNum d) && bool_decide (Ver d = OldVer d).

(** Modelled from the spec: the release decreased. *)
Definition IsDowngrade (d : Diff) : bool := bool_decide (RelNum d < OldRelNum d).

End DiffPred.

(** Modelled from the spec: [Package.Resolve], a method declared in the
    common package.  Every declared build-dependency name resolves to a
    position of the snapshot. *)
Definition Resolve (pkg : Package) (nameToSrcIdx : gmap string Z) : bool :=
  forallb (λ dep, bool_decide (is_Some (nameToSrcIdx !! dep))) (BuildDeps pkg).

(** ** Graphs *)

Definition nodes (g : Graph) : gset Z := dom g.

(** [edge g u v]: [u] is a vertex of [g] and [v] one of its successors;
    read "u depends on v". *)
Definition edge (g : Graph) (u v : Z) : Prop :=
  ∃ outs, g !! u = Some outs ∧ v ∈ outs.

(** Every successor is itself a vertex. *)
Definition closed (g : Graph) : Prop :=
  map_Forall (λ _ outs, outs ⊆ dom g) g.

#[global] Instance closed_dec (g : Graph) : Decision (closed g).
Proof. unfold closed. apply _. Defined.

(** No vertex reaches itself along one or more edges. *)
Definition acyclic (g : Graph) : Prop := ∀ x, ¬ tc (edge g) x x.

(** Modelled from the spec: the induced subgraph computed by
    [utils.LiftGraph].  The vertices satisfying [choose], each with those
    of its successors that satisfy [choose]. *)
Definition induced (g : Graph) (choose : Z → bool) : Graph :=
  filter (λ v, choose v = true) <$> filter (λ kv, choose kv.1 = true) g.

(** Modelled from the spec: [utils.LiftGraph], a function declared in the
    utils package.  The induced subgraph on the chosen positions; the
    operation fails only on a structurally invalid input, where a chosen
    edge leads to a position that is no vertex of the graph. *)
Definition LiftGraph (g : Graph) (choose : Z → bool) : Result Graph :=
  let res := induced g choose in
  if decide (closed res) then Ok res
  else Err "edge to a position outside the graph".

(** Modelled from the spec: the readiness test of [graph.TopologicalSort].
    A vertex can be emitted once none of its successors remains. *)
Definition ready (rem : Graph) (kv : Z * gset Z) : Prop := kv.2 ∩ dom rem = ∅.

#[global] Instance ready_dec rem kv : Decision (ready rem kv).
Proof. unfold ready. apply _. Defined.

(** Modelled from the spec: the loop of [graph.TopologicalSort].  Emit
    ready vertices until none remains; a non-empty remainder without a
    ready vertex lies on or behind a cycle. *)
Fixpoint topo_loop (fuel : nat) (rem : Graph) (order : list Z)
    : Result (list Z) :=
  match fuel with
  | O =>
      if decide (rem = ∅) then Ok order
      else Err "topological sort cannot be computed on graph with cycles"
  | S fuel' =>
      match list_find (ready rem) (map_to_list rem) with
      | Some (_, (v, _)) => topo_loop fuel' (delete v rem) (order ++ [v])
      | None =>
          if decide (rem = ∅) then Ok order
          else Err "topological sort cannot be computed on graph with cycles"
      end
  end.

(** Modelled from the spec: [graph.TopologicalSort], a function of the
    graph library the command imports.  An order in which every vertex
    comes after all of its successors (its dependencies), or an error when
    the graph has a cycle. *)
Definition TopologicalSort (g : Graph) : Result (list Z) :=
  topo_loop (size g) g [].

(** ** The push command (cmd package) *)

(** The two flags registered by [init]. *)
Record Flags : Type := mkFlags { force : bool; dryRun : bool }.

(** [init]: [--force] defaults to false, [--dry-run] to true. *)
Definition init : Flags := {| force := false; dryRun := true |}.

(** The four locals filled in by the classification loop. *)
Record Buckets : Type := mkBuckets {
  bumped : list Package;
  bset : gmap Z bool;
  outdated : list Package;
  bad : list Package
}.

(** [bset[i]]: a missing key reads as false. *)
Definition bset_at (m : gmap Z bool) (i : Z) : bool := default false (m !! i).

(** [r] or [waterlog.Fatalf] with the message built from its error. *)
Definition or_fatal {A} (r : Result A) (msg : string → string) : M A :=
  match r with
  | Ok a => ret a
  | Err e => fatalf (msg e)
  end.

(** The log lines [waterlog.Printf(" %s", pkg.Name)] of a package list. *)
Definition print_names (pkgs : list Package) : M unit :=
  for_each (λ pkg, log Plain (" " +:+ Name pkg)) pkgs.

Section Push.

Context `{Collaborators}.

(** Lines 62-69: the bucket a Diff and its package go to. *)
Definition classify_step (b : Buckets) (diff : Diff) (pkg : Package) : Buckets :=
  if DiffPred.IsNewRel diff then
    {| bumped := bumped b ++ [pkg];
       bset := <[Idx diff := true]> (bset b);
       outdated := outdated b; bad := bad b |}
  else if DiffPred.IsSameRel diff && negb (DiffPred.IsSame diff) then
    {| bumped := bumped b; bset := bset b;
       outdated := outdated b; bad := bad b ++ [pkg] |}
  else if DiffPred.IsDowngrade diff then
    {| bumped := bumped b; bset := bset b;
       outdated := outdated b ++ [pkg]; bad := bad b |}
  else b.

(** Lines 60-70: one iteration of the loop over [changes]. *)
Definition classify_body (newState : State) (_ : Z) (diff : Diff)
    (b : Buckets) : M Buckets :=
  pkg <- at_index (Packages newState) (Idx diff) ;;
  ret (classify_step b diff pkg).

(** Lines 55-70: the four locals, empty before the loop. *)
Definition no_buckets : Buckets :=
  {| bumped := []; bset := ∅; outdated := []; bad := [] |}.

Definition classify (newState : State) (changes : list Diff) : M Buckets :=
  range (classify_body newState) changes no_buckets.

(** Lines 75-84: the same-release findings, fatal unless forced. *)
Definition report_bad (flags : Flags) (b : Buckets) : M unit :=
  if decide (length (bad b) ≠ 0%nat) then
    log Warn
      "The following packages have the same release number but different version:" ;;;
    print_names (bad b) ;;;
    log Plain nl ;;;
    if negb (force flags) then osExit 1 else ret tt
  else ret tt.

(** Lines 86-92: the downgrades, never fatal. *)
Definition report_outdated (b : Buckets) : M unit :=
  if decide (length (outdated b) ≠ 0%nat) then
    log Warn "The following packages have older release numbers:" ;;;
    print_names (outdated b) ;;;
    log Plain nl
  else ret tt.

(** Lines 100-105: the bumped packages that do not resolve. *)
Definition collect_unresolved (newState : State) (pkgs : list Package)
    : M (list Package) :=
  range (λ _ pkg unresolved,
           if negb (Resolve pkg (NameToSrcIdx newState))
           then ret (unresolved ++ [pkg]) else ret unresolved)
        pkgs [].

(** Lines 109-118: one report line per unresolved package. *)
Definition report_unresolved_pkg (newState : State) (pkg : Package) : M unit :=
  log Error (Name pkg +:+ ":") ;;;
  for_each (λ dep,
              match NameToSrcIdx newState !! dep with
              | None => log Plain (" " +:+ dep)
              | Some _ => ret tt
              end)
           (BuildDeps pkg) ;;;
  log Plain nl.

(** Lines 106-124: the unresolved findings, fatal unless forced. *)
Definition report_unresolved (flags : Flags) (newState : State)
    (unresolved : list Package) : M unit :=
  if decide (length unresolved ≠ 0%nat) then
    log Error ("The following packages have nonexistent build dependencies:" +:+ nl) ;;;
    for_each (report_unresolved_pkg newState) unresolved ;;;
    if negb (force flags) then osExit 1 else ret tt
  else ret tt.

(** Lines 149-161: one iteration of the loop over the components. *)
Definition report_cycle (newState : State) (_ : Z) (cycle : list Z)
    (cycleIdx : Z) : M Z :=
  if decide (Z.of_nat (length cycle) ≤ 1) then ret cycleIdx
  else
    log Debug ("Cycle " +:+ pretty (cycleIdx + 1) +:+ ":") ;;;
    for_each (λ nodeIdx,
                pkg <- at_index (Packages newState) nodeIdx ;;
                log Plain (" " +:+ Name pkg))
             cycle ;;;
    log Plain nl ;;;
    ret (cycleIdx + 1).

(** Lines 142-165: the failure branch of the topological sort. *)
Definition diagnose_cycles {A} (newState : State) (lifted : Graph)
    (err : string) : M A :=
  emit (CreateFile "lifted.gv") ;;;
  emit (DrawDOT lifted) ;;;
  match StronglyConnectedComponents lifted with
  | Ok cycles => _ <- range (report_cycle newState) cycles 0 ;; ret tt
  | Err _ => ret tt
  end ;;;
  fatalf ("Failed to compute build order: " +:+ err +:+ nl).

(** Lines 176-184: one iteration of the publishing loop. *)
Definition publish_one (newState : State) (idx : Z) : M unit :=
  pkg <- at_index (Packages newState) idx ;;
  log Info ("Publishing " +:+ Name pkg +:+ nl) ;;;
  emit (CallPublish pkg) ;;;
  job <- or_fatal (Publish pkg)
           (λ err, "Publishing package " +:+ Name pkg +:+ " failed: "
                     +:+ err +:+ nl) ;;
  log Good ("Published package " +:+ Name pkg +:+ " with job ID "
              +:+ pretty (ID job) +:+ nl).

(** Lines 141-165: the build order, or the diagnosis and the fatal end. *)
Definition sort_or_diagnose (newState : State) (lifted : Graph) : M (list Z) :=
  match TopologicalSort lifted with
  | Ok order => ret order
  | Err err => diagnose_cycles newState lifted err
  end.

(** Lines 167-170: the build order, one package name per line. *)
Definition print_order (newState : State) (order : list Z) : M unit :=
  log Good ("Here's the build order:" +:+ nl) ;;;
  for_each (λ idx,
              pkg <- at_index (Packages newState) idx ;;
              log Plain (Name pkg +:+ nl))
           order.

(** Lines 126-170: the lifted graph, its order and the printed plan. *)
Definition lift_and_order (newState : State) (b : Buckets) : M (list Z) :=
  log Good "The following packages will be updated:" ;;;
  print_names (bumped b) ;;;
  log Plain nl ;;;
  let depGraph := DepGraph newState in
  log Good ("Successfully generated dependency graph!" +:+ nl) ;;;
  lifted <- or_fatal (LiftGraph depGraph (bset_at (bset b)))
              (λ err, "Failed to lift updated packages from dependency graph: "
                        +:+ err +:+ nl) ;;
  log Good ("Successfully isolated packages to update!" +:+ nl) ;;;
  order <- sort_or_diagnose newState lifted ;;
  print_order newState order ;;;
  ret order.

(** Lines 99-170: the resolution check, then the plan. *)
Definition compute_order (flags : Flags) (newState : State) (b : Buckets)
    : M (list Z) :=
  unresolved <- collect_unresolved newState (bumped b) ;;
  report_unresolved flags newState unresolved ;;;
  lift_and_order newState b.

(** Lines 172-184: nothing on a dry run, else the publishing loop. *)
Definition publish_order (flags : Flags) (newState : State) (order : list Z)
    : M unit :=
  if dryRun flags then ret tt
  else for_each (publish_one newState) order.

(** Lines 86-184: the downgrades, then the plan and its execution. *)
Definition push_reported (flags : Flags) (newState : State) (b : Buckets)
    : M unit :=
  report_outdated b ;;;
  if decide (length (bumped b) = 0%nat) then
    log Info ("No packages to update. Exiting..." +:+ nl)
  else
    order <- compute_order flags newState b ;;
    publish_order flags newState order.

(** Lines 75-184: the same-release findings, then the rest. *)
Definition push_classified (flags : Flags) (newState : State) (b : Buckets)
    : M unit :=
  report_bad flags b ;;;
  push_reported flags newState b.

(** Lines 35-50: both snapshots, or the fatal end of the run. *)
Definition load_states (args : list string) : M (State * State) :=
  oldTPath <- at_index args 0 ;;
  newTPath <- at_index args 1 ;;
  r <- LoadState oldTPath ;;
  oldState <- or_fatal r
    (λ err, "Failed to load old state " +:+ oldTPath +:+ ": " +:+ err +:+ nl) ;;
  log Good ("Successfully parsed old state!" +:+ nl) ;;;
  r <- LoadState newTPath ;;
  newState <- or_fatal r
    (λ err, "Failed to load new state " +:+ newTPath +:+ ": " +:+ err +:+ nl) ;;
  log Good ("Successfully parsed new state!" +:+ nl) ;;;
  ret (oldState, newState).

(** [runPush]; [flags] are the values [cmd.Flags()] holds for the run. *)
Definition runPush (flags : Flags) (args : list string) : M unit :=
  states <- load_states args ;;
  let '(oldState, newState) := states in
  log Info ("Diffing..." +:+ nl) ;;;
  changes <- Changed oldState newState ;;
  b <- classify newState changes ;;
  push_classified flags newState b.

End Push.

(** ** Specification-side definitions *)

(** The number of occurrences of [sep] in [s]. *)
Fixpoint occurrences (sep : ascii) (s : string) : nat :=
  match s with
  | EmptyString => 0%nat
  | String c r => if decide (c = sep) then S (occurrences sep r)
                  else occurrences sep r
  end.

(** [strings.Join] for a one-byte separator. *)
Fixpoint Join (fields : list string) (sep : ascii) : string :=
  match fields with
  | [] => EmptyString
  | [field] => field
  | field :: rest => field +:+ String sep (Join rest sep)
  end.

(** The recognised kinds of a tpath. *)
Definition kinds : list string := ["src"; "bin"; "repo"].

(** The name index of a snapshot points into its package sequence. *)
Definition index_in_range (s : State) : Prop :=
  map_Forall (λ _ i, is_Some (index (Packages s) i)) (NameToSrcIdx s).

#[global] Instance index_in_range_dec s : Decision (index_in_range s).
Proof. unfold index_in_range. apply _. Defined.

(** The Diffs of [res] attached to position [idx] of the new snapshot. *)
Definition diffs_at (res : list Diff) (idx : Z) : list Diff :=
  filter (λ d, Idx d = idx) res.

(** What the description of the diff engine prescribes for the package
    [pkg] at position [idx] of the new snapshot: a Diff without old side
    when the name is unknown to [old], nothing when release and version
    are identical, a Diff with both sides otherwise. *)
Definition expected_diffs (old : State) (idx : Z) (pkg : Package) : list Diff :=
  match NameToSrcIdx old !! Name pkg with
  | None => [Diff_added idx pkg]
  | Some oldIdx =>
      match index (Packages old) oldIdx with
      | Some oldPkg =>
          if decide (Release oldPkg = Release pkg ∧ Version oldPkg = Version pkg)
          then [] else [Diff_matched idx oldIdx pkg oldPkg]
      | None => []
      end
  end.

(** The same for a run of packages starting at position [idx]. *)
Fixpoint expected_from (old : State) (idx : Z) (pkgs : list Package) : list Diff :=
  match pkgs with
  | [] => []
  | pkg :: rest => expected_diffs old idx pkg ++ expected_from old (idx + 1) rest
  end.

(** [a] occurs before [b] in [order]. *)
Definition precedes (order : list Z) (a b : Z) : Prop :=
  ∃ i j : nat, order !! i = Some a ∧ order !! j = Some b ∧ (i < j)%nat.

(** The state of the sorting loop over [g]: [rem] is the part of [g] still
    to be emitted, [order] holds each other vertex once, after all of its
    successors. *)
Record topo_inv (g rem : Graph) (order : list Z) : Prop := {
  inv_sub : rem ⊆ g;
  inv_nodup : NoDup order;
  inv_elems : ∀ p, p ∈ order ↔ p ∈ dom g ∧ p ∉ dom rem;
  inv_edges : ∀ u v, u ∈ order → edge g u v → v ∈ dom g → precedes order v u
}.

(** ** Expected output *)

Definition name_line (pkg : Package) : Event := Log Plain (" " +:+ Name pkg).

Definition name_lines (pkgs : list Package) : list Event := name_line <$> pkgs.

(** The same-release report of lines 76-80. *)
Definition bad_lines (pkgs : list Package) : list Event :=
  Log Warn "The following packages have the same release number but different version:"
    :: name_lines pkgs ++ [Log Plain nl].

(** The downgrade report of lines 87-91. *)
Definition outdated_lines (pkgs : list Package) : list Event :=
  Log Warn "The following packages have older release numbers:"
    :: name_lines pkgs ++ [Log Plain nl].

(** The build-dependency names of [pkg] unknown to the snapshot. *)
Definition missing_deps (newState : State) (pkg : Package) : list string :=
  filter (λ dep, NameToSrcIdx newState !! dep = None) (BuildDeps pkg).

(** The report of one unresolved package: its name, then the missing
    names. *)
Definition unresolved_block (newState : State) (pkg : Package) : list Event :=
  Log Error (Name pkg +:+ ":")
    :: ((λ dep, Log Plain (" " +:+ dep)) <$> missing_deps newState pkg)
    ++ [Log Plain nl].

(** The batch report of lines 108-118. *)
Definition unresolved_lines (newState : State) (unresolved : list Package)
    : list Event :=
  Log Error ("The following packages have nonexistent build dependencies:" +:+ nl)
    :: (unresolved ≫= unresolved_block newState).

(** The candidates that fail the resolution check. *)
Definition failing (newState : State) (pkgs : list Package) : list Package :=
  filter (λ pkg, Resolve pkg (NameToSrcIdx newState) = false) pkgs.

(** A component with at least two members. *)
Definition nontrivial (cycle : list Z) : Prop := (2 ≤ length cycle)%nat.

#[global] Instance nontrivial_dec cycle : Decision (nontrivial cycle).
Proof. unfold nontrivial. apply _. Defined.

(** The report of the component numbered [k]: its number, then the names
    of its members. *)
Definition cycle_block (pkgs : list Package) (k : Z) (cycle : list Z)
    : list Event :=
  Log Debug ("Cycle " +:+ pretty k +:+ ":")
    :: name_lines (omap (index pkgs) cycle) ++ [Log Plain nl].

(** The reports of the components of [cycles], numbered from [k]. *)
Fixpoint cycle_blocks (pkgs : list Package) (k : Z) (cycles : list (list Z))
    : list Event :=
  match cycles with
  | [] => []
  | cycle :: rest => cycle_block pkgs k cycle ++ cycle_blocks pkgs (k + 1) rest
  end.

(** The printed build order of lines 167-170. *)
Definition order_lines (pkgs : list Package) (order : list Z) : list Event :=
  Log Good ("Here's the build order:" +:+ nl)
    :: ((λ pkg, Log Plain (Name pkg +:+ nl)) <$> omap (index pkgs) order).

(** Every position of [vs] is a position of [pkgs]. *)
Definition positions (pkgs : list Package) (vs : list Z) : Prop :=
  Forall (λ v, is_Some (index pkgs v)) vs.

#[global] Instance positions_dec pkgs vs : Decision (positions pkgs vs).
Proof. unfold positions. apply _. Defined.

Definition is_publish (e : Event) : Prop :=
  match e with
  | CallPublish _ => True
  | _ => False
  end.

(** A computation that never calls the publisher. *)
Definition quiet {A} (m : M A) : Prop :=
  Forall (λ e, ¬ is_publish e) (trace m).

(** The announcement of the plan of lines 126-139. *)
Definition plan_lines (b : Buckets) : list Event :=
  Log Good "The following packages will be updated:"
    :: name_lines (bumped b)
    ++ [ Log Plain nl;
         Log Good ("Successfully generated dependency graph!" +:+ nl);
         Log Good ("Successfully isolated packages to update!" +:+ nl) ].

(** The components consist of vertices of the graph. *)
Definition components_of (g : Graph) (cycles : list (list Z)) : Prop :=
  Forall (Forall (λ v, v ∈ nodes g)) cycles.

#[global] Instance components_of_dec g cycles : Decision (components_of g cycles).
Proof. unfold components_of. apply _. Defined.

(** Everything a run logs before it sorts the lifted graph, [t_load] being
    the trace of the loading. *)
Definition before_sort (flags : Flags) (newState : State) (b : Buckets)
    (t_load : list Event) : list Event :=
  t_load ++ [Log Info ("Diffing..." +:+ nl)]
    ++ trace (report_bad flags b) ++ trace (report_outdated b)
    ++ trace (report_unresolved flags newState (failing newState (bumped b)))
    ++ plan_lines b.

(** ** Classification, as a function of the Diffs *)

(** The buckets after the Diffs of [changes], starting from [b]. *)
Definition classified (pkgs : list Package) (changes : list Diff)
    (b : Buckets) : Buckets :=
  foldl (λ b diff,
           match index pkgs (Idx diff) with
           | Some pkg => classify_step b diff pkg
           | None => b
           end)
        b changes.

(** The packages of the Diffs that satisfy [P]. *)
Definition select (P : Diff → bool) (pkgs : list Package)
    (changes : list Diff) : list Package :=
  omap (λ diff, index pkgs (Idx diff)) (filter (λ diff, P diff = true) changes).

(** Same release, other version, in the place the if-chain gives it. *)
Definition is_bad (diff : Diff) : bool :=
  negb (DiffPred.IsNewRel diff)
  && (DiffPred.IsSameRel diff && negb (DiffPred.IsSame diff)).

(** ** Scenarios *)

(** Two snapshots covering the cases of the diff engine: [pkgA] gets a new
    release, [pkgB] a new version under the same release, [pkgN] is new,
    [pkgU] is unchanged and [pkgO] falls back to an older release. *)
Module Scenario.

Definition oldState : State :=
  {| Packages := [ mkPackage "pkgA" "1.0" 1 [];
                   mkPackage "pkgB" "2.0" 3 [];
                   mkPackage "pkgU" "0.9" 5 [];
                   mkPackage "pkgO" "4.0" 7 [] ];
     NameToSrcIdx := {[ "pkgA" := 0; "pkgB" := 1; "pkgU" := 2; "pkgO" := 3 ]};
     DepGraph := {[ 0 := ∅; 1 := ∅; 2 := ∅; 3 := ∅ ]} |}.

Definition pkgA : Package := mkPackage "pkgA" "1.1" 2 ["pkgN"; "pkgU"].
Definition pkgB : Package := mkPackage "pkgB" "2.1" 3 [].
Definition pkgN : Package := mkPackage "pkgN" "0.1" 1 ["pkgX"; "pkgU"; "pkgY"].
Definition pkgU : Package := mkPackage "pkgU" "0.9" 5 [].
Definition pkgO : Package := mkPackage "pkgO" "4.0" 6 [].

Definition newState : State :=
  {| Packages := [pkgA; pkgB; pkgN; pkgU; pkgO];
     NameToSrcIdx :=
       {[ "pkgA" := 0; "pkgB" := 1; "pkgN" := 2; "pkgU" := 3; "pkgO" := 4 ]};
     DepGraph := {[ 0 := {[2; 3]}; 1 := ∅; 2 := {[3]}; 3 := ∅; 4 := ∅ ]} |}.

(** An old snapshot that knows [pkgN] at position 0, with release 0 and
    an empty version. *)
Definition zeroState : State :=
  {| Packages := [ mkPackage "pkgN" "" 0 [] ];
     NameToSrcIdx := {[ "pkgN" := 0 ]};
     DepGraph := {[ 0 := ∅ ]} |}.

(** An old snapshot without any package. *)
Definition emptyState : State :=
  {| Packages := []; NameToSrcIdx := ∅; DepGraph := ∅ |}.

(** Every loader knows the snapshots [old] and [new]; no component is ever
    found and every publication gets job 1. *)
Definition load (path : string) : Result State :=
  if decide (path = "old") then Ok oldState
  else if decide (path = "new") then Ok newState
  else Err "no such snapshot".

Definition collaborators : Collaborators :=
  {| LoadSource := load; LoadBinary := load; LoadEopkgRepo := load;
     StronglyConnectedComponents := λ _, Ok [];
     Publish := λ _, Ok (mkJob 1) |}.

End Scenario.

(** [pkgE] and [pkgF] both get a new release, [pkgE] depends on [pkgF],
    which depends on the unchanged [pkgG]. *)
Module ScenarioD.

Definition oldState : State :=
  {| Packages := [ mkPackage "pkgE" "1.0" 1 ["pkgF"];
                   mkPackage "pkgF" "1.0" 1 ["pkgG"];
                   mkPackage "pkgG" "1.0" 1 [] ];
     NameToSrcIdx := {[ "pkgE" := 0; "pkgF" := 1; "pkgG" := 2 ]};
     DepGraph := {[ 0 := {[1]}; 1 := {[2]}; 2 := ∅ ]} |}.

Definition pkgE : Package := mkPackage "pkgE" "1.1" 2 ["pkgF"].
Definition pkgF : Package := mkPackage "pkgF" "1.1" 2 ["pkgG"].
Definition pkgG : Package := mkPackage "pkgG" "1.0" 1 [].

Definition newState : State :=
  {| Packages := [pkgE; pkgF; pkgG];
     NameToSrcIdx := {[ "pkgE" := 0; "pkgF" := 1; "pkgG" := 2 ]};
     DepGraph := {[ 0 := {[1]}; 1 := {[2]}; 2 := ∅ ]} |}.

(** The rebuild set: positions 0 and 1. *)
Definition rebuild : gmap Z bool := {[ 0 := true; 1 := true ]}.

Definition load (path : string) : Result State :=
  if decide (path = "old") then Ok oldState
  else if decide (path = "new") then Ok newState
  else Err "no such snapshot".

Definition collaborators : Collaborators :=
  {| LoadSource := load; LoadBinary := load; LoadEopkgRepo := load;
     StronglyConnectedComponents := λ _, Ok [];
     Publish := λ _, Ok (mkJob 1) |}.

End ScenarioD.

(** [pkgG] and [pkgH] both get a new release and depend on each other;
    [pkgI] gets a new release and depends on nothing. *)
Module ScenarioE.

Definition oldState : State :=
  {| Packages := [ mkPackage "pkgG" "1.0" 1 ["pkgH"];
                   mkPackage "pkgH" "1.0" 1 ["pkgG"];
                   mkPackage "pkgI" "1.0" 1 [] ];
     NameToSrcIdx := {[ "pkgG" := 0; "pkgH" := 1; "pkgI" := 2 ]};
     DepGraph := {[ 0 := {[1]}; 1 := {[0]}; 2 := ∅ ]} |}.

Definition pkgG : Package := mkPackage "pkgG" "1.0" 2 ["pkgH"].
Definition pkgH : Package := mkPackage "pkgH" "1.0" 2 ["pkgG"].
Definition pkgI : Package := mkPackage "pkgI" "1.0" 2 [].

Definition newState : State :=
  {| Packages := [pkgG; pkgH; pkgI];
     NameToSrcIdx := {[ "pkgG" := 0; "pkgH" := 1; "pkgI" := 2 ]};
     DepGraph := {[ 0 := {[1]}; 1 := {[0]}; 2 := ∅ ]} |}.

Definition load (path : string) : Result State :=
  if decide (path = "old") then Ok oldState
  else if decide (path = "new") then Ok newState
  else Err "no such snapshot".

(** The components of the dependency graph above. *)
Definition components : list (list Z) := [[2]; [0; 1]].

Definition collaborators : Collaborators :=
  {| LoadSource := load; LoadBinary := load; LoadEopkgRepo := load;
     StronglyConnectedComponents := λ _, Ok components;
     Publish := λ _, Ok (mkJob 1) |}.

End ScenarioE.

(** The snapshots of scenario D, with a dependency graph that lacks the
    vertex of [pkgF], and a publisher that refuses [pkgE]. *)
Module ScenarioF.

Definition newState : State :=
  {| Packages := Packages ScenarioD.newState;
     NameToSrcIdx := NameToSrcIdx ScenarioD.newState;
     DepGraph := {[ 0 := {[1]}; 2 := ∅ ]} |}.

Definition load (path : string) : Result State :=
  if decide (path = "old") then Ok ScenarioD.oldState
  else if decide (path = "new") then Ok newState
  else Err "no such snapshot".

Definition refuse (pkg : Package) : Result Job :=
  if decide (Name pkg = "pkgE") then Err "queue full" else Ok (mkJob 7).

Definition collaborators : Collaborators :=
  {| LoadSource := load; LoadBinary := load; LoadEopkgRepo := load;
     StronglyConnectedComponents := λ _, Ok [];
     Publish := refuse |}.

End ScenarioF.

(** Two packages that the old snapshot does not know: [pkgP] with release
    1 and no build dependency, [pkgZ] with release 0 and a build
    dependency, [ghost], that no snapshot knows. *)
Module ScenarioZ.

Definition pkgP : Package := mkPackage "pkgP" "1.0" 1 [].
Definition pkgZ : Package := mkPackage "pkgZ" "0.1" 0 ["ghost"].

Definition newState : State :=
  {| Packages := [pkgP; pkgZ];
     NameToSrcIdx := {[ "pkgP" := 0; "pkgZ" := 1 ]};
     DepGraph := {[ 0 := ∅; 1 := ∅ ]} |}.

Definition load (path : string) : Result State :=
  if decide (path = "old") then Ok Scenario.emptyState
  else if decide (path = "new") then Ok newState
  else Err "no such snapshot".

Definition collaborators : Collaborators :=
  {| LoadSource := load; LoadBinary := load; LoadEopkgRepo := load;
     StronglyConnectedComponents := λ _, Ok [];
     Publish := λ _, Ok (mkJob 1) |}.

End ScenarioZ.

(** The snapshots of scenario E, with a graph library whose computation of
    the components fails. *)
Module ScenarioS.

Definition collaborators : Collaborators :=
  {| LoadSource := ScenarioE.load; LoadBinary := ScenarioE.load;
     LoadEopkgRepo := ScenarioE.load;
     StronglyConnectedComponents := λ _, Err "failed to get adjacency map";
     Publish := λ _, Ok (mkJob 1) |}.

End ScenarioS.

(** [rank] decreases along every edge of [g]. *)
Definition ranked (g : Graph) (rank : Z → Z) : Prop :=
  map_Forall (λ u outs, set_Forall (λ v, rank v < rank u) outs) g.

#[global] Instance ranked_dec g rank : Decision (ranked g rank).
Proof. unfold ranked. apply _. Defined.

(** ** Further specification-side definitions *)

(** [s] contains no [sep]. *)
Definition free_of (sep : ascii) (s : string) : Prop := occurrences sep s = 0%nat.

#[global] Instance free_of_dec sep s : Decision (free_of sep s).
Proof. unfold free_of. apply _. Defined.

(** [kind:path]. *)
Definition tpath_of (kind path : string) : string :=
  kind +:+ String colon path.

(** The name index of [s] sends the name of every package to the position
    of that package. *)
Definition name_indexed (s : State) : Prop :=
  ∀ (i : nat) pkg, Packages s !! i = Some pkg →
    NameToSrcIdx s !! Name pkg = Some (Z.of_nat i).

(** The same, as a check over the positions. *)
Definition name_indexed_check (s : State) : Prop :=
  Forall (λ ip : nat * Package,
            NameToSrcIdx s !! Name ip.2 = Some (Z.of_nat ip.1))
         (imap pair (Packages s)).

#[global] Instance name_indexed_check_dec s : Decision (name_indexed_check s).
Proof. unfold name_indexed_check. apply _. Defined.

(** The name of [pkg] is known to [old], at a position outside its
    package sequence. *)
Definition dangling (old : State) (pkg : Package) : Prop :=
  match NameToSrcIdx old !! Name pkg with
  | Some i => index (Packages old) i = None
  | None => False
  end.

#[global] Instance dangling_dec old pkg : Decision (dangling old pkg).
Proof. unfold dangling. case_match; apply _. Defined.

(** [m1] is [m2], or [m1] exits with code 1 at a point that [m2] goes
    past: what [m1] does is the beginning of what [m2] does. *)
Definition stops_early {A} (m1 m2 : M A) : Prop :=
  m1 = m2 ∨ (outcome m1 = Exited 1 ∧ trace m1 `prefix_of` trace m2).

(** [m1] is [m2], or [m1] returns at a point that [m2] goes past. *)
Definition returns_early (m1 m2 : M unit) : Prop :=
  m1 = m2 ∨ (outcome m1 = Val tt ∧ trace m1 `prefix_of` trace m2).

#[global] Instance is_publish_dec e : Decision (is_publish e).
Proof. destruct e; simpl; apply _. Defined.

(** The publisher calls of a trace, in order. *)
Definition publish_calls (t : list Event) : list Event := filter is_publish t.

(** What the publishing loop logs for a package the publisher accepts. *)
Definition published_lines (pkg : Package) (job : Job) : list Event :=
  [ Log Info ("Publishing " +:+ Name pkg +:+ nl);
    CallPublish pkg;
    Log Good ("Published package " +:+ Name pkg +:+ " with job ID "
                +:+ pretty (ID job) +:+ nl) ].

(** What it logs for a package the publisher refuses. *)
Definition refused_lines (pkg : Package) (err : string) : list Event :=
  [ Log Info ("Publishing " +:+ Name pkg +:+ nl);
    CallPublish pkg;
    Log Fatal ("Publishing package " +:+ Name pkg +:+ " failed: "
                 +:+ err +:+ nl) ].

(** What it logs for a run of packages the publisher accepts. *)
Definition accepted_lines `{Collaborators} (pkgs : list Package) : list Event :=
  pkgs ≫= λ pkg, match Publish pkg with
                 | Ok job => published_lines pkg job
                 | Err _ => []
                 end.

(** The publisher accepts every package of [pkgs]. *)
Definition accepted `{Collaborators} (pkgs : list Package) : Prop :=
  Forall (λ pkg, ∃ job, Publish pkg = Ok job) pkgs.

(** The buckets without the downgrades. *)
Definition without_outdated (b : Buckets) : Buckets :=
  {| bumped := bumped b; bset := bset b; outdated := []; bad := bad b |}.

(** Everything a run logs before it lifts the dependency graph. *)
Definition before_lift (flags : Flags) (newState : State) (b : Buckets)
    (t_load : list Event) : list Event :=
  t_load ++ [Log Info ("Diffing..." +:+ nl)]
    ++ trace (report_bad flags b) ++ trace (report_outdated b)
    ++ trace (report_unresolved flags newState (failing newState (bumped b)))
    ++ Log Good "The following packages will be updated:"
         :: name_lines (bumped b)
    ++ [ Log Plain nl;
         Log Good ("Successfully generated dependency graph!" +:+ nl) ].

(** A computation that exits the process with code 1 or not at all. *)
Definition exits_one {A} (m : M A) : Prop :=
  ∀ code, outcome m = Exited code → code = 1.

(** The ways a phase can end other than by a panic. *)
Definition ends_well {A} (m : M A) : Prop :=
  (∃ a, outcome m = Val a) ∨ outcome m = Exited 1.

(** [u] and [v] reach each other along the edges of [g]. *)
Definition strongly_connected (g : Graph) (u v : Z) : Prop :=
  rtc (edge g) u v ∧ rtc (edge g) v u.

(** [c] is a strongly connected component of [g], each member listed
    once: vertices of [g], and with a vertex all the vertices of [g] that
    are strongly connected to it. *)
Definition is_scc (g : Graph) (c : list Z) : Prop :=
  NoDup c ∧ c ≠ [] ∧ (∀ u, u ∈ c → u ∈ nodes g) ∧
  ∀ u v, u ∈ c → v ∈ nodes g → (v ∈ c ↔ strongly_connected g u v).

(** [cycles] lists strongly connected components of [g] that cover its
    vertices. *)
Definition scc_decomposition (g : Graph) (cycles : list (list Z)) : Prop :=
  Forall (is_scc g) cycles ∧ ∀ v, v ∈ nodes g → ∃ c, c ∈ cycles ∧ v ∈ c.

(** A line logged at level [lvl]. *)
Definition logged_at (lvl : Level) (e : Event) : Prop :=
  match e with
  | Log l _ => l = lvl
  | _ => False
  end.

#[global] Instance logged_at_dec lvl e : Decision (logged_at lvl e).
Proof. destruct e; simpl; apply _. Defined.

(** * Properties *)

(** ** The effect monad *)

Lemma bind_ret {A B} (a : A) (f : A → M B) : bind (ret a) f = f a.
Proof. unfold bind, ret. by destruct (f a). Qed.

Lemma bind_val {A B} (m : M A) (f : A → M B) t a :
  m = (t, Val a) → bind m f = (t ++ trace (f a), outcome (f a)).
Proof. intros ->. unfold bind, trace, outcome. by destruct (f a). Qed.

Lemma bind_assoc {A B C} (m : M A) (f : A → M B) (g : B → M C) :
  bind (bind m f) g = bind m (λ a, bind (f a) g).
Proof.
  destruct m as [t [a | c | ]]; simpl; [| done | done].
  destruct (f a) as [t' [b | c | ]]; simpl; [| done | done].
  destruct (g b) as [t'' o]. by rewrite app_assoc.
Qed.

Lemma trace_bind {A B} (m : M A) (f : A → M B) :
  trace (bind m f) =
    trace m ++ match outcome m with Val a => trace (f a) | _ => [] end.
Proof.
  destruct m as [t [a | c | ]]; simpl; [| by rewrite app_nil_r ..].
  by destruct (f a).
Qed.

(** ** Slices *)

Lemma index_of_nat {A} (xs : list A) (i : nat) : index xs (Z.of_nat i) = xs !! i.
Proof.
  unfold index. rewrite decide_True by lia. by rewrite Nat2Z.id.
Qed.

(** ** [strings.Split] *)

Lemma Split_nonempty s sep : Split s sep ≠ [].
Proof.
  destruct s as [| c r]; simpl; [done |].
  case_decide; [done |]. by destruct (Split r sep).
Qed.

(** One more field than there are separators. *)
Lemma Split_length s sep : length (Split s sep) = S (occurrences sep s).
Proof.
  induction s as [| c r IH]; simpl; [done |].
  case_decide; simpl; [by rewrite IH |].
  destruct (Split r sep); simpl in *; [done | lia].
Qed.

(** Joining the fields gives the string back. *)
Lemma Join_Split s sep : Join (Split s sep) sep = s.
Proof.
  induction s as [| c r IH]; simpl; [done |].
  case_decide as Hc.
  - subst c. pose proof (Split_nonempty r sep).
    destruct (Split r sep) as [| f fs] eqn:E; [done |].
    simpl in *. by rewrite IH.
  - pose proof (Split_nonempty r sep).
    destruct (Split r sep) as [| f fs] eqn:E; [done |].
    destruct fs; simpl in *; by rewrite <- IH.
Qed.

(** No field contains the separator. *)
Lemma Split_fields s sep field :
  field ∈ Split s sep → occurrences sep field = 0%nat.
Proof.
  revert field. induction s as [| c r IH]; simpl; intros field Hin.
  - apply list_elem_of_singleton in Hin. by subst.
  - case_decide as Hc.
    + apply elem_of_cons in Hin as [-> | Hin]; [done | by apply IH].
    + destruct (Split r sep) as [| f fs] eqn:E.
      * apply list_elem_of_singleton in Hin. subst. simpl.
        by rewrite decide_False.
      * apply elem_of_cons in Hin as [-> | Hin].
        -- simpl. rewrite decide_False by done. apply IH. left.
        -- apply IH. by right.
Qed.

(** ** Snapshot references *)

Lemma ValidTPath_true tpath :
  ValidTPath tpath = true ↔
    (length (Split tpath colon) ≤ 2)%nat ∧
    ∃ kind, Split tpath colon !! 0%nat = Some kind ∧ kind ∈ kinds.
Proof.
  unfold ValidTPath, Contains, kinds.
  pose proof (Split_nonempty tpath colon).
  destruct (Split tpath colon) as [| kind rest]; [done |].
  case_decide; simpl in *.
  - split; [done | lia].
  - rewrite bool_decide_eq_true. split.
    + intros Hk. split; [lia | eauto].
    + by intros [_ (k & [= <-] & Hk)].
Qed.

(** C7: a tpath with three or more [:]-separated fields, or whose first
    field is none of [src], [bin], [repo], makes [LoadState] return the
    invalid-path error, and no loader is called: the trace of the call is
    empty. *)
Theorem LoadState_invalid `{Collaborators} (tpath : string) :
  (3 ≤ length (Split tpath colon))%nat ∨
    (∃ kind, Split tpath colon !! 0%nat = Some kind ∧ kind ∉ kinds) →
  LoadState tpath = ([], Val (Err InvalidTPathError)).
Proof.
  intros Hbad. unfold LoadState.
  destruct (ValidTPath tpath) eqn:Hv; [| done].
  apply ValidTPath_true in Hv as (Hlen & kind & Hk & Hin).
  destruct Hbad as [Hlong | (kind' & Hk' & Hnot)]; [lia |].
  rewrite Hk in Hk'. by simplify_eq.
Qed.

Lemma LoadState_invalid_witness :
  @LoadState Scenario.collaborators "src:a:b"
    = ([], Val (Err InvalidTPathError)) ∧
  @LoadState Scenario.collaborators "tar:a"
    = ([], Val (Err InvalidTPathError)).
Proof.
  split.
  - apply LoadState_invalid. left. vm_compute. lia.
  - apply LoadState_invalid. right. exists "tar". split; [reflexivity |].
    compute_done.
Defined.

(** C8: for the bare kinds [src], [bin] and [repo], [ValidTPath] answers
    true, the split has no second field, and [LoadState] leaves its
    invalid-path branch aside and panics on [splitted[1]], before any
    loader is called. *)
Theorem LoadState_bare_kind `{Collaborators} (tpath : string) :
  tpath ∈ kinds →
  ValidTPath tpath = true ∧
  Split tpath colon = [tpath] ∧
  index (Split tpath colon) 1 = None ∧
  LoadState tpath = ([], Panicked).
Proof.
  unfold kinds. intros Hin.
  repeat (apply elem_of_cons in Hin as [-> | Hin]; [by vm_compute |]).
  by apply elem_of_nil in Hin.
Qed.

Lemma LoadState_bare_kind_witness :
  ValidTPath "repo" = true ∧
  Split "repo" colon = ["repo"] ∧
  index (Split "repo" colon) 1 = None ∧
  @LoadState Scenario.collaborators "repo" = ([], Panicked).
Proof.
  apply LoadState_bare_kind. compute_done.
Defined.

(** ** The diff engine *)

Lemma Changed_body_eq old idx pkg res :
  Changed_body old idx pkg res =
    match NameToSrcIdx old !! Name pkg with
    | None => ret (res ++ expected_diffs old idx pkg)
    | Some oldIdx =>
        match index (Packages old) oldIdx with
        | Some _ => ret (res ++ expected_diffs old idx pkg)
        | None => panic
        end
    end.
Proof.
  unfold Changed_body, expected_diffs, at_index.
  destruct (NameToSrcIdx old !! Name pkg) as [oldIdx |]; [| done].
  destruct (index (Packages old) oldIdx) as [oldPkg |]; [| done].
  rewrite bind_ret.
  destruct (decide (Release oldPkg = Release pkg ∧ Version oldPkg = Version pkg))
    as [[Hr Hv] | Hne].
  - rewrite !bool_decide_eq_false_2 by (intros ?; done). simpl.
    by rewrite app_nil_r.
  - destruct (decide (Release oldPkg = Release pkg)) as [Hr | Hr].
    + rewrite (bool_decide_eq_false_2 (Release oldPkg ≠ Release pkg))
        by (intros ?; done).
      rewrite bool_decide_eq_true_2; [done |]. intros Hv. by apply Hne.
    + by rewrite bool_decide_eq_true_2.
Qed.

(** Whenever the loop of [Changed] ends normally it has logged nothing and
    appended exactly the prescribed Diffs. *)
Lemma range_from_Changed old pkgs : ∀ idx res t r,
  range_from (Changed_body old) idx pkgs res = (t, Val r) →
  t = [] ∧ r = res ++ expected_from old idx pkgs.
Proof.
  induction pkgs as [| pkg rest IH]; intros idx res t r; simpl.
  - intros [= <- <-]. by rewrite app_nil_r.
  - rewrite Changed_body_eq.
    destruct (NameToSrcIdx old !! Name pkg) as [oldIdx |].
    + destruct (index (Packages old) oldIdx); [| done].
      rewrite bind_ret. intros Hrun. apply IH in Hrun as [-> ->].
      by rewrite app_assoc.
    + rewrite bind_ret. intros Hrun. apply IH in Hrun as [-> ->].
      by rewrite app_assoc.
Qed.

(** With an old name index that points into the old package sequence the
    loop always ends normally. *)
Lemma range_from_Changed_total old pkgs : index_in_range old → ∀ idx res,
  range_from (Changed_body old) idx pkgs res
    = ([], Val (res ++ expected_from old idx pkgs)).
Proof.
  intros Hwf. induction pkgs as [| pkg rest IH]; intros idx res; simpl.
  - by rewrite app_nil_r.
  - rewrite Changed_body_eq.
    destruct (NameToSrcIdx old !! Name pkg) as [oldIdx |] eqn:Hname.
    + destruct (Hwf _ _ Hname) as [oldPkg ->].
      by rewrite bind_ret, IH, app_assoc.
    + by rewrite bind_ret, IH, app_assoc.
Qed.

Lemma expected_diffs_Idx old idx pkg d :
  d ∈ expected_diffs old idx pkg → Idx d = idx.
Proof.
  unfold expected_diffs.
  destruct (NameToSrcIdx old !! Name pkg) as [oldIdx |].
  - destruct (index (Packages old) oldIdx) as [oldPkg |];
      [| by intros ?%elem_of_nil].
    case_decide; [by intros ?%elem_of_nil |].
    by intros ->%list_elem_of_singleton.
  - by intros ->%list_elem_of_singleton.
Qed.

Lemma expected_diffs_matched old idx pkg oldIdx oldPkg :
  NameToSrcIdx old !! Name pkg = Some oldIdx →
  index (Packages old) oldIdx = Some oldPkg →
  Release oldPkg ≠ Release pkg ∨ Version oldPkg ≠ Version pkg →
  expected_diffs old idx pkg = [Diff_matched idx oldIdx pkg oldPkg].
Proof.
  intros Hname Hold Hne. unfold expected_diffs. rewrite Hname, Hold.
  rewrite decide_False; [done |]. intros [? ?]. by destruct Hne.
Qed.

(** Every prescribed Diff sits at the position of a package of the run. *)
Lemma expected_from_Idx old pkgs : ∀ idx d,
  d ∈ expected_from old idx pkgs →
  ∃ (k : nat) pkg, pkgs !! k = Some pkg ∧ Idx d = idx + Z.of_nat k.
Proof.
  induction pkgs as [| pkg rest IH]; intros idx d; simpl.
  - by intros ?%elem_of_nil.
  - intros [Hd | Hd]%elem_of_app.
    + exists 0%nat, pkg. split; [done |].
      apply expected_diffs_Idx in Hd. lia.
    + apply IH in Hd as (k & pkg' & Hk & Hidx).
      exists (S k), pkg'. split; [done | lia].
Qed.

Lemma diffs_at_app res1 res2 idx :
  diffs_at (res1 ++ res2) idx = diffs_at res1 idx ++ diffs_at res2 idx.
Proof. apply filter_app. Qed.

Lemma diffs_at_all res idx :
  (∀ d, d ∈ res → Idx d = idx) → diffs_at res idx = res.
Proof.
  intros Hall. unfold diffs_at. induction res as [| d res IH]; [done |].
  rewrite filter_cons_True by (apply Hall; left).
  f_equal. apply IH. intros d' Hd'. apply Hall. by right.
Qed.

Lemma diffs_at_none res idx :
  (∀ d, d ∈ res → Idx d ≠ idx) → diffs_at res idx = [].
Proof.
  intros Hall. unfold diffs_at. induction res as [| d res IH]; [done |].
  rewrite filter_cons_False by (apply Hall; left).
  apply IH. intros d' Hd'. apply Hall. by right.
Qed.

(** The Diffs attached to the [k]-th package of the run are the ones
    prescribed for that package, no more and no fewer. *)
Lemma diffs_at_expected_from old pkgs : ∀ idx (k : nat) pkg,
  pkgs !! k = Some pkg →
  diffs_at (expected_from old idx pkgs) (idx + Z.of_nat k)
    = expected_diffs old (idx + Z.of_nat k) pkg.
Proof.
  induction pkgs as [| pkg0 rest IH]; intros idx k pkg Hk; [done |].
  simpl. rewrite diffs_at_app. destruct k as [| k]; simpl in Hk.
  - injection Hk as ->. replace (idx + Z.of_nat 0) with idx by lia.
    rewrite diffs_at_all by apply expected_diffs_Idx.
    rewrite diffs_at_none; [by rewrite app_nil_r |].
    intros d (k & pkg' & _ & Hidx)%expected_from_Idx. lia.
  - rewrite diffs_at_none.
    + replace (idx + Z.of_nat (S k)) with (idx + 1 + Z.of_nat k) by lia.
      by apply IH.
    + intros d Hd%expected_diffs_Idx. lia.
Qed.

(** The prescribed Diffs come in the order of the packages. *)
Lemma expected_from_sorted old pkgs : ∀ idx,
  StronglySorted Z.lt (Idx <$> expected_from old idx pkgs).
Proof.
  induction pkgs as [| pkg rest IH]; intros idx; simpl; [constructor |].
  rewrite fmap_app.
  assert (Hhead : ∀ d, d ∈ expected_diffs old idx pkg → Idx d = idx)
    by apply expected_diffs_Idx.
  assert (Htail : Forall (λ i, idx < i) (Idx <$> expected_from old (idx + 1) rest)).
  { apply Forall_fmap, Forall_forall. intros d Hd.
    apply expected_from_Idx in Hd as (k & pkg' & _ & Hidx). simpl. lia. }
  unfold expected_diffs in *.
  destruct (NameToSrcIdx old !! Name pkg) as [oldIdx |].
  - destruct (index (Packages old) oldIdx) as [oldPkg |]; [| apply IH].
    case_decide; [apply IH |]. simpl. constructor; [apply IH | done].
  - simpl. constructor; [apply IH | done].
Qed.

(** C3: [Changed] returns its Diffs in the package order of the new
    snapshot, each attached to a position of the new snapshot.  A package
    whose name the old snapshot does not know gets exactly one Diff, without
    old-side fields; a matched package whose release or version differs
    gets exactly one Diff, carrying both sides' release and version; a
    matched package with identical release and version gets none. *)
Theorem Changed_diffs (old cur : State) :
  index_in_range old →
  ∃ res, Changed old cur = ([], Val res) ∧
    StronglySorted Z.lt (Idx <$> res) ∧
    (∀ d, d ∈ res → ∃ (i : nat) pkg,
        Packages cur !! i = Some pkg ∧ Idx d = Z.of_nat i) ∧
    ∀ (i : nat) pkg, Packages cur !! i = Some pkg →
      (NameToSrcIdx old !! Name pkg = None →
         diffs_at res (Z.of_nat i) = [Diff_added (Z.of_nat i) pkg]) ∧
      (∀ oldIdx oldPkg,
         NameToSrcIdx old !! Name pkg = Some oldIdx →
         index (Packages old) oldIdx = Some oldPkg →
         (Release oldPkg ≠ Release pkg ∨ Version oldPkg ≠ Version pkg →
            diffs_at res (Z.of_nat i)
              = [Diff_matched (Z.of_nat i) oldIdx pkg oldPkg]) ∧
         (Release oldPkg = Release pkg → Version oldPkg = Version pkg →
            diffs_at res (Z.of_nat i) = [])).
Proof.
  intros Hwf. exists (expected_from old 0 (Packages cur)).
  split; [apply (range_from_Changed_total old _ Hwf 0 []) |].
  split; [apply expected_from_sorted |].
  split.
  { intros d (k & pkg & Hk & Hidx)%expected_from_Idx. exists k, pkg.
    split; [done | lia]. }
  intros i pkg Hi.
  pose proof (diffs_at_expected_from old _ 0 i pkg Hi) as Hat.
  rewrite Z.add_0_l in Hat. rewrite Hat. unfold expected_diffs.
  split.
  - by intros ->.
  - intros oldIdx oldPkg Hname Hold. split.
    + intros Hne. fold (expected_diffs old (Z.of_nat i) pkg).
      by apply expected_diffs_matched.
    + intros Hr Hv. by rewrite Hname, Hold, decide_True.
Qed.

Lemma Changed_diffs_witness :
  ∃ res, Changed Scenario.oldState Scenario.newState = ([], Val res) ∧
    diffs_at res 0 = [Diff_matched 0 0 Scenario.pkgA (mkPackage "pkgA" "1.0" 1 [])] ∧
    diffs_at res 2 = [Diff_added 2 Scenario.pkgN] ∧
    diffs_at res 3 = [].
Proof.
  destruct (Changed_diffs Scenario.oldState Scenario.newState)
    as (res & Hrun & _ & _ & Hat); [compute_done |].
  exists res. split; [exact Hrun |]. split; [| split].
  - destruct (Hat 0%nat Scenario.pkgA) as [_ Hm]; [reflexivity |].
    destruct (Hm 0 (mkPackage "pkgA" "1.0" 1 [])) as [Hdiff _];
      [reflexivity | reflexivity |].
    apply Hdiff. left. simpl. lia.
  - destruct (Hat 2%nat Scenario.pkgN) as [Hnew _]; [reflexivity |].
    apply Hnew. reflexivity.
  - destruct (Hat 3%nat Scenario.pkgU) as [_ Hm]; [reflexivity |].
    destruct (Hm 2 (mkPackage "pkgU" "0.9" 5 [])) as [_ Hsame];
      [reflexivity | reflexivity |].
    apply Hsame; reflexivity.
Defined.

(** C10: the Diff that [Changed] emits for a package the old snapshot does
    not know has [OldIdx = 0], [OldRelNum = 0] and [OldVer] empty.  It is
    the very value built for a package matched at old position 0 with old
    release 0 and empty old version, and against an old snapshot holding
    such a package [Changed] emits the same Diff at that position: nothing
    in the Diff tells whether an old side existed. *)
Theorem Changed_added_zero (old cur : State) (res : list Diff) (i : nat)
    (pkg : Package) :
  Changed old cur = ([], Val res) →
  Packages cur !! i = Some pkg →
  NameToSrcIdx old !! Name pkg = None →
  ∃ d, diffs_at res (Z.of_nat i) = [d] ∧
    OldIdx d = 0 ∧ OldRelNum d = 0 ∧ OldVer d = "" ∧
    (∀ oldPkg, Release oldPkg = 0 → Version oldPkg = "" →
       d = Diff_matched (Z.of_nat i) 0 pkg oldPkg) ∧
    (∀ old' res' oldPkg,
       Changed old' cur = ([], Val res') →
       NameToSrcIdx old' !! Name pkg = Some 0 →
       index (Packages old') 0 = Some oldPkg →
       Release oldPkg = 0 → Version oldPkg = "" →
       Release pkg ≠ 0 ∨ Version pkg ≠ "" →
       diffs_at res' (Z.of_nat i) = [d]).
Proof.
  intros Hrun Hi Hname.
  apply range_from_Changed in Hrun as [_ ->]. simpl.
  exists (Diff_added (Z.of_nat i) pkg).
  pose proof (diffs_at_expected_from old _ 0 i pkg Hi) as Hat.
  rewrite Z.add_0_l in Hat. rewrite Hat. unfold expected_diffs at 1.
  rewrite Hname. repeat split.
  - intros oldPkg Hr Hv. unfold Diff_added, Diff_matched. by rewrite Hr, Hv.
  - intros old' res' oldPkg Hrun' Hname' Hold Hr Hv Hne.
    apply range_from_Changed in Hrun' as [_ ->]. simpl.
    pose proof (diffs_at_expected_from old' _ 0 i pkg Hi) as Hat'.
    rewrite Z.add_0_l in Hat'. rewrite Hat'. unfold expected_diffs.
    rewrite Hname', Hold. rewrite decide_False.
    + unfold Diff_added, Diff_matched. by rewrite Hr, Hv.
    + intros [Hr' Hv']. destruct Hne as [Hne | Hne]; apply Hne; congruence.
Qed.

Lemma Changed_added_zero_witness :
  ∃ d, diffs_at (expected_from Scenario.emptyState 0 (Packages Scenario.newState)) 2 = [d] ∧
    OldIdx d = 0 ∧ OldRelNum d = 0 ∧ OldVer d = "" ∧
    diffs_at (expected_from Scenario.zeroState 0 (Packages Scenario.newState)) 2 = [d].
Proof.
  destruct (Changed_added_zero Scenario.emptyState Scenario.newState
              (expected_from Scenario.emptyState 0 (Packages Scenario.newState))
              2 Scenario.pkgN)
    as (d & Hat & Hidx & Hrel & Hver & _ & Hsame);
    [by vm_compute | reflexivity | reflexivity |].
  exists d. split; [exact Hat |]. split; [exact Hidx |].
  split; [exact Hrel |]. split; [exact Hver |].
  apply (Hsame Scenario.zeroState _ (mkPackage "pkgN" "" 0 []));
    [by vm_compute | reflexivity | reflexivity | reflexivity | reflexivity |].
  left. simpl. lia.
Defined.

(** ** Lifting *)

Lemma lookup_induced g choose u outs :
  induced g choose !! u = Some outs ↔
    choose u = true ∧
    ∃ outs0, g !! u = Some outs0 ∧ outs = filter (λ v, choose v = true) outs0.
Proof.
  unfold induced. rewrite lookup_fmap_Some. split.
  - intros (outs0 & <- & [Hu Hc]%map_lookup_filter_Some). eauto.
  - intros (Hc & outs0 & Hu & ->). exists outs0. split; [done |].
    by apply map_lookup_filter_Some.
Qed.

Lemma nodes_induced g choose p :
  p ∈ nodes (induced g choose) ↔ p ∈ nodes g ∧ choose p = true.
Proof.
  unfold nodes. rewrite !elem_of_dom. split.
  - intros [outs (Hc & outs0 & Hp & _)%lookup_induced]. eauto.
  - intros [[outs0 Hp] Hc]. eexists. apply lookup_induced. eauto.
Qed.

Lemma edge_induced g choose u v :
  edge (induced g choose) u v ↔
    choose u = true ∧ choose v = true ∧ edge g u v.
Proof.
  unfold edge. split.
  - intros (outs & (Hc & outs0 & Hu & ->)%lookup_induced & Hv).
    apply elem_of_filter in Hv as [Hcv Hv]. eauto.
  - intros (Hcu & Hcv & outs0 & Hu & Hv). eexists. split.
    + apply lookup_induced. eauto.
    + by apply elem_of_filter.
Qed.

Lemma induced_idemp g choose :
  induced (induced g choose) choose = induced g choose.
Proof.
  apply map_eq. intros u. apply option_eq. intros outs.
  rewrite !lookup_induced. split.
  - intros (Hc & outs1 & (_ & outs0 & Hu & ->)%lookup_induced & ->).
    split; [done |]. exists outs0. split; [done |].
    apply set_eq. intros v. rewrite !elem_of_filter. tauto.
  - intros (Hc & outs0 & Hu & ->). split; [done |].
    exists (filter (λ v, choose v = true) outs0). split.
    + apply lookup_induced. eauto.
    + apply set_eq. intros v. rewrite !elem_of_filter. tauto.
Qed.

Lemma closed_edge g : closed g ↔ ∀ u v, edge g u v → v ∈ nodes g.
Proof.
  unfold closed, edge, nodes. rewrite map_Forall_lookup. split.
  - intros Hc u v (outs & Hu & Hv). by apply (Hc u outs).
  - intros He u outs Hu v Hv. apply (He u v). eauto.
Qed.

Lemma closed_induced g choose : closed g → closed (induced g choose).
Proof.
  rewrite !closed_edge. intros Hc u v (Hcu & Hcv & He)%edge_induced.
  apply nodes_induced. split; [by apply (Hc u) | done].
Qed.

(** Whenever lifting succeeds its result is the induced subgraph. *)
Lemma LiftGraph_Ok g choose lifted :
  LiftGraph g choose = Ok lifted →
  lifted = induced g choose ∧ closed lifted.
Proof. unfold LiftGraph. case_decide; [| done]. by intros [= <-]. Qed.

Lemma LiftGraph_closed g choose :
  closed g → LiftGraph g choose = Ok (induced g choose).
Proof.
  intros Hc. unfold LiftGraph. by rewrite decide_True by by apply closed_induced.
Qed.

(** C2: lifting a graph whose edges stay inside it succeeds, and returns
    the induced subgraph on the chosen positions: its vertices are the
    vertices of the graph that satisfy the predicate, it has the edge
    [(u, v)] exactly when both ends satisfy the predicate and the graph has
    that edge, and lifting the result again returns it unchanged. *)
Theorem LiftGraph_induced (g : Graph) (choose : Z → bool) :
  closed g →
  ∃ lifted, LiftGraph g choose = Ok lifted ∧
    (∀ p, p ∈ nodes lifted ↔ p ∈ nodes g ∧ choose p = true) ∧
    (∀ u v, edge lifted u v ↔ choose u = true ∧ choose v = true ∧ edge g u v) ∧
    LiftGraph lifted choose = Ok lifted.
Proof.
  intros Hc. exists (induced g choose).
  split; [by apply LiftGraph_closed |].
  split; [apply nodes_induced |].
  split; [apply edge_induced |].
  rewrite LiftGraph_closed by by apply closed_induced.
  by rewrite induced_idemp.
Qed.

Lemma LiftGraph_induced_witness :
  ∃ lifted,
    LiftGraph (DepGraph Scenario.newState) (λ p, bool_decide (p ≠ 3)) = Ok lifted ∧
    (2 ∈ nodes lifted ∧ 3 ∉ nodes lifted) ∧
    (edge lifted 0 2 ∧ ¬ edge lifted 0 3) ∧
    LiftGraph lifted (λ p, bool_decide (p ≠ 3)) = Ok lifted.
Proof.
  destruct (LiftGraph_induced (DepGraph Scenario.newState)
              (λ p, bool_decide (p ≠ 3)))
    as (lifted & Hrun & Hnodes & Hedges & Hagain); [compute_done |].
  exists lifted. split; [exact Hrun |]. split; [| split; [| exact Hagain]].
  - split.
    + apply Hnodes. split; [compute_done | reflexivity].
    + intros [_ Hc]%Hnodes. discriminate Hc.
  - split.
    + apply Hedges. split; [reflexivity |]. split; [reflexivity |].
      exists {[2; 3]}. split; [reflexivity | compute_done].
    + intros (_ & Hc & _)%Hedges. discriminate Hc.
Defined.

(** ** Build order *)

Lemma precedes_app_l order extra a b :
  precedes order a b → precedes (order ++ extra) a b.
Proof.
  intros (i & j & Hi & Hj & Hlt). exists i, j.
  split; [by apply lookup_app_l_Some |].
  split; [by apply lookup_app_l_Some | done].
Qed.

Lemma precedes_snoc order a b : a ∈ order → precedes (order ++ [b]) a b.
Proof.
  intros [i Hi]%list_elem_of_lookup. exists i, (length order).
  split; [by apply lookup_app_l_Some |].
  split; [by rewrite list_lookup_middle |].
  by apply lookup_lt_Some in Hi.
Qed.

(** A non-empty finite set in which every element reaches an element of
    the set contains a cycle. *)
Lemma cycle_of_no_sink (R : relation Z) (X : gset Z) :
  X ≠ ∅ →
  (∀ x, x ∈ X → ∃ y, y ∈ X ∧ tc R x y) →
  ∃ x, tc R x x.
Proof.
  induction X as [| x X Hx IH] using set_ind_L; [done |].
  intros _ Hsucc.
  destruct (Hsucc x) as (y & Hy & Hxy);
    [apply elem_of_union_l; by apply elem_of_singleton |].
  destruct (decide (y = x)) as [-> | Hne]; [eauto |].
  assert (HyX : y ∈ X).
  { apply elem_of_union in Hy as [Hy%elem_of_singleton | Hy]; done. }
  apply IH.
  { intros ->. by apply elem_of_empty in HyX. }
  intros z Hz.
  destruct (Hsucc z) as (w & Hw & Hzw); [by apply elem_of_union_r |].
  destruct (decide (w = x)) as [-> | Hwx].
  - exists y. split; [done |]. by etrans.
  - exists w. split; [| done].
    apply elem_of_union in Hw as [Hw%elem_of_singleton | Hw]; done.
Qed.

Lemma topo_inv_init g : topo_inv g g [].
Proof.
  split.
  - done.
  - constructor.
  - intros p. split; [by intros ?%elem_of_nil | by intros [? ?]].
  - by intros u v ?%elem_of_nil.
Qed.

(** Emitting a ready vertex keeps the loop state consistent. *)
Lemma topo_inv_step g rem order v outs :
  topo_inv g rem order →
  rem !! v = Some outs →
  ready rem (v, outs) →
  topo_inv g (delete v rem) (order ++ [v]).
Proof.
  intros [Hsub Hnd Hel Hed] Hv Hready. unfold ready in Hready. simpl in Hready.
  assert (Hvrem : v ∈ dom rem) by (apply elem_of_dom; eauto).
  assert (Hvg : g !! v = Some outs) by by eapply lookup_weaken.
  split.
  - etrans; [apply delete_subseteq | done].
  - apply NoDup_app. split; [done |]. split; [| apply NoDup_singleton].
    intros p Hp ->%list_elem_of_singleton. by apply Hel in Hp as [_ ?].
  - intros p. rewrite elem_of_app, list_elem_of_singleton, dom_delete_L, Hel.
    rewrite elem_of_difference, elem_of_singleton. split.
    + intros [[Hg Hr] | ->].
      * split; [done |]. by intros [? _].
      * split; [apply elem_of_dom; eauto |]. by intros [_ ?].
    + intros [Hg Hr]. destruct (decide (p = v)) as [-> | Hne]; [by right |].
      left. split; [done |]. intros Hp. apply Hr. by split.
  - intros u w [Hu | ->%list_elem_of_singleton]%elem_of_app Huw Hw.
    + apply precedes_app_l. by apply Hed.
    + apply precedes_snoc. apply Hel. split; [done |].
      destruct Huw as (outs' & Hv' & Hwo). rewrite Hvg in Hv'.
      injection Hv' as <-. intros Hwr.
      assert (w ∈ outs ∩ dom rem) as Hin by by apply elem_of_intersection.
      rewrite Hready in Hin. by apply elem_of_empty in Hin.
Qed.

(** The vertex picked by the loop is a ready vertex of the remainder. *)
Lemma list_find_ready (rem : Graph) i v outs :
  list_find (ready rem) (map_to_list rem) = Some (i, (v, outs)) →
  rem !! v = Some outs ∧ ready rem (v, outs).
Proof.
  intros (Hi & Hready & _)%list_find_Some. split; [| done].
  apply elem_of_map_to_list. apply list_elem_of_lookup. eauto.
Qed.

Lemma topo_inv_final g order :
  topo_inv g ∅ order →
  NoDup order ∧ (∀ p, p ∈ order ↔ p ∈ nodes g) ∧
  ∀ u v, edge g u v → v ∈ nodes g → precedes order v u.
Proof.
  intros [_ Hnd Hel Hed]. unfold nodes.
  assert (Hall : ∀ p, p ∈ order ↔ p ∈ dom g).
  { intros p. rewrite Hel, dom_empty_L. split; [by intros [? _] |].
    intros Hp. split; [done |]. apply not_elem_of_empty. }
  split; [done |]. split; [done |].
  intros u v Huv Hv. apply Hed; [| done | done].
  apply Hall. destruct Huv as (outs & Hu & _). apply elem_of_dom. eauto.
Qed.

(** Whatever the loop returns is an order of all vertices with every
    vertex behind its successors. *)
Lemma topo_loop_sound g fuel : ∀ rem order res,
  topo_inv g rem order →
  topo_loop fuel rem order = Ok res →
  NoDup res ∧ (∀ p, p ∈ res ↔ p ∈ nodes g) ∧
  ∀ u v, edge g u v → v ∈ nodes g → precedes res v u.
Proof.
  induction fuel as [| fuel IH]; intros rem order res Hinv; simpl.
  - case_decide as Hrem; [| done]. intros [= <-]. subst rem.
    by apply topo_inv_final.
  - destruct (list_find (ready rem) (map_to_list rem))
      as [[i [v outs]] |] eqn:Hfind.
    + apply list_find_ready in Hfind as [Hv Hready].
      apply IH. by eapply topo_inv_step.
    + case_decide as Hrem; [| done]. intros [= <-]. subst rem.
      by apply topo_inv_final.
Qed.

(** In an acyclic graph a non-empty remainder has a ready vertex. *)
Lemma acyclic_ready g rem :
  acyclic g → rem ⊆ g → rem ≠ ∅ →
  is_Some (list_find (ready rem) (map_to_list rem)).
Proof.
  intros Hacyc Hsub Hne.
  destruct (list_find (ready rem) (map_to_list rem)) eqn:Hfind; [eauto |].
  exfalso. rewrite list_find_None, Forall_forall in Hfind.
  destruct (cycle_of_no_sink (edge g) (dom rem)) as [x Hx].
  - by intros ?%dom_empty_inv_L.
  - intros x [outs Hx]%elem_of_dom.
    assert (¬ ready rem (x, outs)) as Hnr
      by by apply Hfind, elem_of_map_to_list.
    unfold ready in Hnr. simpl in Hnr.
    apply set_choose_L in Hnr as [y [Hy Hyr]%elem_of_intersection].
    exists y. split; [done |]. apply tc_once. exists outs.
    split; [by eapply lookup_weaken | done].
  - by apply (Hacyc x).
Qed.

(** On an acyclic graph the loop never fails. *)
Lemma topo_loop_total g fuel : ∀ rem order,
  acyclic g → rem ⊆ g → size rem = fuel →
  ∃ res, topo_loop fuel rem order = Ok res.
Proof.
  induction fuel as [| fuel IH]; intros rem order Hacyc Hsub Hsize; simpl.
  - apply map_size_empty_inv in Hsize as ->. rewrite decide_True by done. eauto.
  - assert (rem ≠ ∅) as Hne.
    { intros ->. by rewrite map_size_empty in Hsize. }
    destruct (acyclic_ready g rem Hacyc Hsub Hne) as [[i [v outs]] Hfind].
    rewrite Hfind. apply list_find_ready in Hfind as [Hv _].
    apply IH; [done | |].
    + etrans; [apply delete_subseteq | done].
    + rewrite map_size_delete, Hv, Hsize. simpl. lia.
Qed.

(** The sort of an acyclic graph succeeds with an order that holds every
    vertex once and every vertex behind its successors. *)
Lemma TopologicalSort_acyclic g :
  acyclic g →
  ∃ order, TopologicalSort g = Ok order ∧
    NoDup order ∧ (∀ p, p ∈ order ↔ p ∈ nodes g) ∧
    ∀ u v, edge g u v → v ∈ nodes g → precedes order v u.
Proof.
  intros Hacyc. unfold TopologicalSort.
  destruct (topo_loop_total g (size g) g [] Hacyc) as [res Hres]; [done .. |].
  exists res. split; [done |].
  eapply topo_loop_sound; [apply topo_inv_init | done].
Qed.

(** A successful sort has found no cycle. *)
Lemma TopologicalSort_Ok_order g order :
  TopologicalSort g = Ok order →
  NoDup order ∧ (∀ p, p ∈ order ↔ p ∈ nodes g) ∧
  ∀ u v, edge g u v → v ∈ nodes g → precedes order v u.
Proof. apply topo_loop_sound, topo_inv_init. Qed.

Lemma precedes_trans order a b c :
  NoDup order → precedes order a b → precedes order b c → precedes order a c.
Proof.
  intros Hnd (i & j & Hi & Hj & Hij) (j' & k & Hj' & Hk & Hjk).
  assert (j = j') as <- by by eapply NoDup_lookup.
  exists i, k. split; [done |]. split; [done | lia].
Qed.

Lemma precedes_irrefl order a : NoDup order → ¬ precedes order a a.
Proof.
  intros Hnd (i & j & Hi & Hj & Hij).
  assert (i = j) by by eapply NoDup_lookup. lia.
Qed.

(** A graph that the sort accepts has no cycle: on a graph with a cycle
    the sort fails. *)
Lemma TopologicalSort_Ok_acyclic g order :
  closed g → TopologicalSort g = Ok order → acyclic g.
Proof.
  intros Hclosed (Hnd & _ & Hed)%TopologicalSort_Ok_order.
  assert (Htc : ∀ x y, tc (edge g) x y → precedes order y x).
  { intros x y Hxy. induction Hxy as [x y Hxy | x y z Hxy _ IH].
    - apply Hed; [done |]. by apply (proj1 (closed_edge g) Hclosed x y).
    - eapply precedes_trans; [done | exact IH |].
      apply Hed; [done |]. by apply (proj1 (closed_edge g) Hclosed x y). }
  intros x Hx. by apply Htc, precedes_irrefl in Hx.
Qed.

Lemma TopologicalSort_cyclic g x :
  closed g → tc (edge g) x x → ∃ err, TopologicalSort g = Err err.
Proof.
  intros Hclosed Hx. destruct (TopologicalSort g) as [order | err] eqn:Hsort;
    [| eauto].
  by apply (TopologicalSort_Ok_acyclic g order Hclosed Hsort x) in Hx.
Qed.

(** A graph with a rank that decreases along its edges has no cycle. *)
Lemma ranked_acyclic g rank : ranked g rank → acyclic g.
Proof.
  intros Hrank.
  assert (Hstep : ∀ u v, edge g u v → rank v < rank u).
  { intros u v (outs & Hu & Hv). by apply (Hrank u outs). }
  assert (Htc : ∀ u v, tc (edge g) u v → rank v < rank u).
  { intros u v Huv. induction Huv as [u v Huv | u w v Huw _ IH].
    - by apply Hstep.
    - apply Hstep in Huw. lia. }
  intros x Hx. apply Htc in Hx. lia.
Qed.

(** C1: for an acyclic lifted subgraph the sort succeeds, and the build
    order holds every vertex of the subgraph exactly once and, for every
    edge [u -> v] of the subgraph ([u] depends on [v]), [v] before [u]. *)
Theorem build_order (g : Graph) (choose : Z → bool) (lifted : Graph) :
  LiftGraph g choose = Ok lifted →
  acyclic lifted →
  ∃ order, TopologicalSort lifted = Ok order ∧
    NoDup order ∧
    (∀ p, p ∈ order ↔ p ∈ nodes lifted) ∧
    (∀ u v, edge lifted u v → precedes order v u).
Proof.
  intros [_ Hclosed]%LiftGraph_Ok Hacyc.
  destruct (TopologicalSort_acyclic lifted Hacyc)
    as (order & Hsort & Hnd & Hel & Hed).
  exists order. split; [done |]. split; [done |]. split; [done |].
  intros u v Huv. apply Hed; [done |].
  by apply (proj1 (closed_edge lifted) Hclosed u v).
Qed.

Lemma build_order_witness :
  ∃ lifted order,
    LiftGraph (DepGraph ScenarioD.newState) (bset_at ScenarioD.rebuild) = Ok lifted ∧
    TopologicalSort lifted = Ok order ∧
    order = [1; 0] ∧
    precedes order 1 0.
Proof.
  set (lifted := induced (DepGraph ScenarioD.newState) (bset_at ScenarioD.rebuild)).
  assert (Hlift : LiftGraph (DepGraph ScenarioD.newState)
                    (bset_at ScenarioD.rebuild) = Ok lifted)
    by (apply LiftGraph_closed; compute_done).
  destruct (build_order _ _ lifted Hlift) as (order & Hsort & _ & _ & Hed).
  { apply (ranked_acyclic _ (λ p, - p)). compute_done. }
  exists lifted, order. split; [exact Hlift |]. split; [exact Hsort |]. split.
  - assert (TopologicalSort lifted = Ok [1; 0]) as Hrun by by vm_compute.
    rewrite Hrun in Hsort. by injection Hsort.
  - apply Hed. exists {[1]}. split; [by vm_compute | compute_done].
Defined.

(** ** Running loops *)

Lemma bind_Val {A B} t (a : A) (f : A → M B) :
  bind (t, Val a) f = (t ++ trace (f a), outcome (f a)).
Proof. by apply bind_val. Qed.

Lemma bind_ext {A B} (m : M A) (f g : A → M B) :
  (∀ a, f a = g a) → bind m f = bind m g.
Proof. intros Hfg. destruct m as [t [a | c | ]]; simpl; by rewrite ?Hfg. Qed.

Lemma run_eq {A} (m : M A) : m = (trace m, outcome m).
Proof. by destruct m. Qed.

Lemma range_from_idx {A S} (body : A → S → M S) xs : ∀ i j s,
  range_from (λ _, body) i xs s = range_from (λ _, body) j xs s.
Proof.
  induction xs as [| x xs IH]; intros i j s; simpl; [done |].
  apply bind_ext. intros s'. apply IH.
Qed.

Lemma for_each_cons {A} (body : A → M unit) x xs :
  for_each body (x :: xs) = bind (body x) (λ _, for_each body xs).
Proof.
  unfold for_each, range. simpl. apply bind_ext. intros [].
  apply (range_from_idx (λ x _, body x)).
Qed.

(** A loop whose body logs [t x] and goes on logs the lines of all the
    elements, in order. *)
Lemma for_each_run {A} (body : A → M unit) (t : A → list Event) xs :
  (∀ x, x ∈ xs → body x = (t x, Val tt)) →
  for_each body xs = (xs ≫= t, Val tt).
Proof.
  induction xs as [| x xs IH]; intros Hbody; [done |].
  rewrite for_each_cons, (Hbody x) by left. rewrite bind_Val.
  rewrite IH by (intros y Hy; apply Hbody; by right). done.
Qed.

Lemma print_names_run pkgs : print_names pkgs = (name_lines pkgs, Val tt).
Proof.
  unfold print_names.
  rewrite (for_each_run _ (λ pkg, [name_line pkg])) by done.
  assert (pkgs ≫= (λ pkg, [name_line pkg]) = name_lines pkgs) as ->; [| done].
  unfold name_lines. induction pkgs as [| pkg pkgs IH]; [done |].
  by rewrite bind_cons, IH.
Qed.

(** A loop that looks every position up and logs a line for its
    package. *)
Lemma for_each_positions pkgs (line : Package → Event) vs :
  positions pkgs vs →
  for_each (λ v, pkg <- at_index pkgs v ;; emit (line pkg)) vs
    = (line <$> omap (index pkgs) vs, Val tt).
Proof.
  unfold positions. induction vs as [| v vs IH]; intros Hvs; [done |].
  apply Forall_cons in Hvs as [[pkg Hv] Hvs].
  rewrite for_each_cons. unfold at_index at 1. rewrite Hv, bind_ret.
  unfold emit at 1. rewrite bind_Val, IH by done. simpl. by rewrite Hv.
Qed.

(** ** Classification *)

Lemma classify_from_run newState changes : ∀ idx b,
  positions (Packages newState) (Idx <$> changes) →
  range_from (classify_body newState) idx changes b
    = ([], Val (classified (Packages newState) changes b)).
Proof.
  unfold positions. induction changes as [| diff changes IH]; intros idx b Hpos;
    [done |].
  rewrite fmap_cons in Hpos. apply Forall_cons in Hpos as [[pkg Hd] Hpos].
  simpl. unfold classify_body at 1, at_index. rewrite Hd, !bind_ret.
  by rewrite IH.
Qed.

Lemma bumped_classified pkgs changes : ∀ b,
  bumped (classified pkgs changes b)
    = bumped b ++ select DiffPred.IsNewRel pkgs changes.
Proof.
  unfold classified, select.
  induction changes as [| diff changes IH]; intros b; simpl.
  { by rewrite app_nil_r. }
  destruct (index pkgs (Idx diff)) as [pkg |] eqn:Hd.
  - rewrite IH. unfold classify_step.
    destruct (DiffPred.IsNewRel diff) eqn:Hnew.
    + rewrite filter_cons_True by done. simpl. rewrite Hd.
      by rewrite <- app_assoc.
    + rewrite filter_cons_False by (by rewrite Hnew).
      by repeat case_match.
  - rewrite IH. destruct (DiffPred.IsNewRel diff) eqn:Hnew.
    + rewrite filter_cons_True by done. simpl. by rewrite Hd.
    + by rewrite filter_cons_False by (by rewrite Hnew).
Qed.

Lemma bad_classified pkgs changes : ∀ b,
  bad (classified pkgs changes b) = bad b ++ select is_bad pkgs changes.
Proof.
  unfold classified, select, is_bad.
  induction changes as [| diff changes IH]; intros b; simpl.
  { by rewrite app_nil_r. }
  destruct (index pkgs (Idx diff)) as [pkg |] eqn:Hd.
  - rewrite IH. unfold classify_step.
    destruct (DiffPred.IsNewRel diff) eqn:Hnew; simpl.
    + by rewrite filter_cons_False by (by rewrite Hnew).
    + destruct (DiffPred.IsSameRel diff && negb (DiffPred.IsSame diff)) eqn:Hbad.
      * rewrite filter_cons_True by (by rewrite Hnew, Hbad). simpl.
        rewrite Hd. by rewrite <- app_assoc.
      * rewrite filter_cons_False by (by rewrite Hnew, Hbad).
        by case_match.
  - rewrite IH.
    destruct (negb (DiffPred.IsNewRel diff)
              && (DiffPred.IsSameRel diff && negb (DiffPred.IsSame diff))) eqn:Hbad.
    + rewrite filter_cons_True by done. simpl. by rewrite Hd.
    + by rewrite filter_cons_False by (by rewrite Hbad).
Qed.

(** A position is marked for rebuilding exactly when it was marked before
    or carries a new-release Diff. *)
Lemma bset_classified pkgs changes : ∀ b i,
  bset_at (bset (classified pkgs changes b)) i = true ↔
    bset_at (bset b) i = true ∨
    ∃ diff, diff ∈ changes ∧ Idx diff = i ∧ DiffPred.IsNewRel diff = true
            ∧ is_Some (index pkgs i).
Proof.
  unfold classified.
  induction changes as [| diff changes IH]; intros b i; simpl.
  { split; [by left |]. intros [? | (d & ?%elem_of_nil & _)]; done. }
  rewrite IH. clear IH.
  assert (Hstep : bset_at (bset match index pkgs (Idx diff) with
                                | Some pkg => classify_step b diff pkg
                                | None => b
                                end) i = true ↔
                  bset_at (bset b) i = true ∨
                  (Idx diff = i ∧ DiffPred.IsNewRel diff = true
                   ∧ is_Some (index pkgs i))).
  { destruct (index pkgs (Idx diff)) as [pkg |] eqn:Hd.
    - unfold classify_step. destruct (DiffPred.IsNewRel diff) eqn:Hnew;
        cbn [bset].
      + unfold bset_at. destruct (decide (Idx diff = i)) as [<- | Hne].
        * rewrite lookup_insert_eq. cbn [default]. split; [| done].
          intros _. right. split; [done |]. split; [done |]. eauto.
        * rewrite lookup_insert_ne by done. split; [by left |].
          intros [? | [? _]]; done.
      + destruct (DiffPred.IsSameRel diff && negb (DiffPred.IsSame diff)),
          (DiffPred.IsDowngrade diff); cbn [bset];
          (split; [by left | intros [? | (_ & ? & _)]; done]).
    - split; [by left |]. intros [? | (<- & _ & [? Hi])]; [done |].
      by rewrite Hd in Hi. }
  rewrite Hstep. split.
  - intros [[Hb | (Hi & Hnew & Hpos)] | (d & Hd & Hi & Hnew & Hpos)].
    + by left.
    + right. exists diff. split; [left |]; done.
    + right. exists d. split; [by right | done].
  - intros [Hb | (d & Hd & Hi & Hnew & Hpos)]; [by left; left |].
    apply elem_of_cons in Hd as [-> | Hd].
    + left. by right.
    + right. by exists d.
Qed.

(** ** Findings *)

Lemma report_bad_run flags b :
  report_bad flags b =
    if decide (bad b = []) then ([], Val tt)
    else (bad_lines (bad b), if force flags then Val tt else Exited 1).
Proof.
  unfold report_bad, bad_lines. destruct (bad b) as [| pkg pkgs]; [done |].
  rewrite decide_True by done. rewrite decide_False by done.
  unfold log, emit. rewrite bind_Val, print_names_run, bind_Val, bind_Val.
  by destruct (force flags).
Qed.

Lemma report_outdated_run b :
  report_outdated b =
    (if decide (outdated b = []) then [] else outdated_lines (outdated b), Val tt).
Proof.
  unfold report_outdated, outdated_lines.
  destruct (outdated b) as [| pkg pkgs]; [done |].
  rewrite decide_True by done. rewrite decide_False by done.
  unfold log, emit. by rewrite bind_Val, print_names_run, bind_Val.
Qed.

Lemma Resolve_false pkg names :
  Resolve pkg names = false ↔ ∃ dep, dep ∈ BuildDeps pkg ∧ names !! dep = None.
Proof.
  unfold Resolve. induction (BuildDeps pkg) as [| dep deps IH]; simpl.
  - split; [done | by intros (dep & ?%elem_of_nil & _)].
  - rewrite andb_false_iff, IH, bool_decide_eq_false. split.
    + intros [Hdep | (dep' & Hin & Hnone)].
      * exists dep. split; [left |]. by apply eq_None_not_Some.
      * exists dep'. split; [by right | done].
    + intros (dep' & [-> | Hin]%elem_of_cons & Hnone).
      * left. by apply eq_None_not_Some.
      * right. eauto.
Qed.

Lemma collect_unresolved_from newState pkgs : ∀ idx acc,
  range_from (λ _ pkg unresolved,
                if negb (Resolve pkg (NameToSrcIdx newState))
                then ret (unresolved ++ [pkg]) else ret unresolved)
             idx pkgs acc
    = ([], Val (acc ++ failing newState pkgs)).
Proof.
  unfold failing. induction pkgs as [| pkg pkgs IH]; intros idx acc; simpl.
  { by rewrite app_nil_r. }
  destruct (Resolve pkg (NameToSrcIdx newState)) eqn:Hres; cbn [negb].
  - rewrite bind_ret, IH. by rewrite filter_cons_False by (by rewrite Hres).
  - rewrite bind_ret, IH. rewrite filter_cons_True by done.
    by rewrite <- app_assoc.
Qed.

Lemma collect_unresolved_run newState pkgs :
  collect_unresolved newState pkgs = ([], Val (failing newState pkgs)).
Proof. apply (collect_unresolved_from newState pkgs 0 []). Qed.

Lemma report_unresolved_pkg_run newState pkg :
  report_unresolved_pkg newState pkg = (unresolved_block newState pkg, Val tt).
Proof.
  unfold report_unresolved_pkg, unresolved_block, missing_deps.
  unfold log, emit. rewrite bind_Val.
  rewrite (for_each_run _
             (λ dep, match NameToSrcIdx newState !! dep with
                     | None => [Log Plain (" " +:+ dep)]
                     | Some _ => []
                     end)) by (intros dep _; by case_match).
  rewrite bind_Val. simpl. do 3 f_equal.
  induction (BuildDeps pkg) as [| dep deps IH]; [done |].
  rewrite bind_cons, IH. destruct (NameToSrcIdx newState !! dep) eqn:Hdep.
  - by rewrite filter_cons_False by (by rewrite Hdep).
  - by rewrite filter_cons_True by done.
Qed.

Lemma report_unresolved_run flags newState unresolved :
  report_unresolved flags newState unresolved =
    if decide (unresolved = []) then ([], Val tt)
    else (unresolved_lines newState unresolved,
          if force flags then Val tt else Exited 1).
Proof.
  unfold report_unresolved, unresolved_lines.
  destruct unresolved as [| pkg pkgs]; [done |].
  rewrite decide_True by done. rewrite decide_False by done.
  unfold log, emit. rewrite bind_Val.
  rewrite (for_each_run _ (unresolved_block newState))
    by (intros; apply report_unresolved_pkg_run).
  rewrite bind_Val. destruct (force flags); simpl; by rewrite app_nil_r.
Qed.

(** ** Runs of the push command *)

Section PushRuns.

Context `{Collaborators}.

(** Once both snapshots are loaded, compared and classified, the run is
    what it logged so far followed by the handling of the buckets. *)
Lemma runPush_classified flags args oldState newState t_load changes b :
  load_states args = (t_load, Val (oldState, newState)) →
  Changed oldState newState = ([], Val changes) →
  classify newState changes = ([], Val b) →
  runPush flags args =
    (t_load ++ [Log Info ("Diffing..." +:+ nl)]
       ++ trace (push_classified flags newState b),
     outcome (push_classified flags newState b)).
Proof.
  intros Hload Hchanged Hclass. unfold runPush.
  rewrite Hload, bind_Val. unfold log, emit.
  rewrite bind_Val, Hchanged, bind_Val, Hclass, bind_Val.
  cbn [trace outcome fst snd]. by rewrite !app_nil_l.
Qed.

(** With an old name index in range, comparison and classification end
    normally, silently, with the buckets computed from the prescribed
    Diffs. *)
Lemma Changed_classify oldState newState :
  index_in_range oldState →
  ∃ changes,
    Changed oldState newState = ([], Val changes) ∧
    changes = expected_from oldState 0 (Packages newState) ∧
    classify newState changes
      = ([], Val (classified (Packages newState) changes no_buckets)).
Proof.
  intros Hwf. exists (expected_from oldState 0 (Packages newState)).
  split; [apply (range_from_Changed_total oldState _ Hwf 0 []) |].
  split; [done |].
  apply classify_from_run. apply Forall_fmap, Forall_forall. intros d Hd.
  apply expected_from_Idx in Hd as (k & pkg & Hk & Hidx). simpl.
  rewrite Hidx, Z.add_0_l, index_of_nat. eauto.
Qed.

Lemma push_classified_run flags newState b :
  push_classified flags newState b =
    if decide (bad b = []) then push_reported flags newState b
    else if force flags then
      (bad_lines (bad b) ++ trace (push_reported flags newState b),
       outcome (push_reported flags newState b))
    else (bad_lines (bad b), Exited 1).
Proof.
  unfold push_classified. rewrite report_bad_run.
  case_decide; [apply (bind_ret tt) |].
  destruct (force flags); [by rewrite bind_Val | done].
Qed.

(** C5: a matched package whose release is unchanged and whose version
    differs lands in the [bad] bucket and its name in the same-release
    report; its position is not marked for rebuilding, none of the
    new-release Diffs is attached to it, and it is no vertex of the lifted
    graph.  Without [--force] the run ends with exit code 1 right after
    that report, before the resolution check, the lifting, the ordering
    and the publishing; with [--force] the report is logged all the same
    and the run goes on behind it. *)
Theorem anomaly_reported (flags : Flags) (args : list string)
    (oldState newState : State) (t_load : list Event) (i : nat)
    (pkg oldPkg : Package) (oldIdx : Z) :
  load_states args = (t_load, Val (oldState, newState)) →
  index_in_range oldState →
  Packages newState !! i = Some pkg →
  NameToSrcIdx oldState !! Name pkg = Some oldIdx →
  index (Packages oldState) oldIdx = Some oldPkg →
  Release oldPkg = Release pkg →
  Version oldPkg ≠ Version pkg →
  ∃ changes b,
    Changed oldState newState = ([], Val changes) ∧
    classify newState changes = ([], Val b) ∧
    pkg ∈ bad b ∧
    name_line pkg ∈ bad_lines (bad b) ∧
    bset_at (bset b) (Z.of_nat i) = false ∧
    bumped b = select DiffPred.IsNewRel (Packages newState) changes ∧
    (∀ diff, diff ∈ changes → Idx diff = Z.of_nat i →
       DiffPred.IsNewRel diff = false) ∧
    (∀ lifted, LiftGraph (DepGraph newState) (bset_at (bset b)) = Ok lifted →
       Z.of_nat i ∉ nodes lifted) ∧
    (force flags = false →
       runPush flags args =
         (t_load ++ [Log Info ("Diffing..." +:+ nl)] ++ bad_lines (bad b),
          Exited 1)) ∧
    (force flags = true →
       runPush flags args =
         (t_load ++ [Log Info ("Diffing..." +:+ nl)] ++ bad_lines (bad b)
            ++ trace (push_reported flags newState b),
          outcome (push_reported flags newState b))).
Proof.
  intros Hload Hwf Hi Hname Hold Hrel Hver.
  destruct (Changed_classify oldState newState Hwf)
    as (changes & Hchanged & Hexp & Hclass).
  pose proof (diffs_at_expected_from oldState _ 0 i pkg Hi) as Hdiff.
  rewrite Z.add_0_l, <- Hexp in Hdiff.
  rewrite (expected_diffs_matched oldState _ pkg oldIdx oldPkg Hname Hold
             (or_intror Hver)) in Hdiff.
  set (d := Diff_matched (Z.of_nat i) oldIdx pkg oldPkg) in *.
  set (b := classified (Packages newState) changes no_buckets) in *.
  assert (Hd : d ∈ changes).
  { assert (d ∈ diffs_at changes (Z.of_nat i)) as Hin
      by (rewrite Hdiff; left).
    by apply list_elem_of_filter in Hin as [_ ?]. }
  assert (Hnew : DiffPred.IsNewRel d = false).
  { unfold DiffPred.IsNewRel, d. simpl. apply bool_decide_eq_false. lia. }
  assert (Hbad : is_bad d = true).
  { unfold is_bad. rewrite Hnew. unfold DiffPred.IsSameRel, DiffPred.IsSame, d.
    simpl. rewrite (bool_decide_eq_true_2 (Release pkg = Release oldPkg)) by done.
    by rewrite (bool_decide_eq_false_2 (Version pkg = Version oldPkg)). }
  assert (Honly : ∀ diff, diff ∈ changes → Idx diff = Z.of_nat i → diff = d).
  { intros diff Hin Hidx.
    assert (diff ∈ diffs_at changes (Z.of_nat i)) as Hin'
      by by apply list_elem_of_filter.
    rewrite Hdiff in Hin'. by apply list_elem_of_singleton in Hin'. }
  assert (Hpkg : pkg ∈ bad b).
  { unfold b. rewrite bad_classified. simpl. apply list_elem_of_omap.
    exists d. split; [by apply list_elem_of_filter |].
    unfold d. simpl. by rewrite index_of_nat. }
  assert (Hbset : bset_at (bset b) (Z.of_nat i) = false).
  { apply not_true_is_false. intros Hmark. unfold b in Hmark.
    apply bset_classified in Hmark as [Hmark | (d' & Hin & Hidx & Hnew' & _)];
      [done |].
    rewrite (Honly d' Hin Hidx) in Hnew'. by rewrite Hnew in Hnew'. }
  assert (Hne : bad b ≠ []).
  { intros Hnil. rewrite Hnil in Hpkg. by apply elem_of_nil in Hpkg. }
  exists changes, b. split; [done |]. split; [done |]. split; [done |].
  split.
  { unfold bad_lines. right. apply elem_of_app. left.
    unfold name_lines. by apply list_elem_of_fmap_2. }
  split; [done |].
  split; [unfold b; by rewrite bumped_classified |].
  split.
  { intros diff Hin Hidx. by rewrite (Honly diff Hin Hidx). }
  split.
  { intros lifted [-> _]%LiftGraph_Ok [_ Hc]%nodes_induced.
    by rewrite Hbset in Hc. }
  split.
  - intros Hforce.
    rewrite (runPush_classified flags args oldState newState t_load changes b)
      by done.
    rewrite push_classified_run, decide_False, Hforce by done. done.
  - intros Hforce.
    rewrite (runPush_classified flags args oldState newState t_load changes b)
      by done.
    rewrite push_classified_run, decide_False, Hforce by done. done.
Qed.

Lemma bind_prefix {A B} t (m : M A) (f : A → M B) :
  bind (t ++ trace m, outcome m) f
    = (t ++ trace (bind m f), outcome (bind m f)).
Proof.
  destruct m as [t' [a | c | ]]; simpl; [| done | done].
  destruct (f a) as [t'' o]. simpl. by rewrite app_assoc.
Qed.

(** A classification that ends normally has logged nothing and filled the
    buckets as the if-chain prescribes. *)
Lemma classify_from_inv newState changes : ∀ idx b0 t b,
  range_from (classify_body newState) idx changes b0 = (t, Val b) →
  t = [] ∧ b = classified (Packages newState) changes b0.
Proof.
  induction changes as [| diff changes IH]; intros idx b0 t b; simpl.
  { by intros [= <- <-]. }
  unfold classify_body at 1, at_index.
  destruct (index (Packages newState) (Idx diff)) as [pkg |]; [| done].
  rewrite !bind_ret. apply IH.
Qed.

Lemma classify_inv newState changes t b :
  classify newState changes = (t, Val b) →
  t = [] ∧ b = classified (Packages newState) changes no_buckets.
Proof. apply classify_from_inv. Qed.

Lemma Changed_inv oldState newState t changes :
  Changed oldState newState = (t, Val changes) →
  t = [] ∧ changes = expected_from oldState 0 (Packages newState).
Proof. intros Hrun. by apply range_from_Changed in Hrun. Qed.

Lemma compute_order_run flags newState b :
  compute_order flags newState b =
    if decide (failing newState (bumped b) = []) then lift_and_order newState b
    else if force flags then
      (unresolved_lines newState (failing newState (bumped b))
         ++ trace (lift_and_order newState b),
       outcome (lift_and_order newState b))
    else (unresolved_lines newState (failing newState (bumped b)), Exited 1).
Proof.
  unfold compute_order.
  rewrite collect_unresolved_run, bind_Val, report_unresolved_run.
  case_decide.
  - rewrite (bind_ret tt). cbn [app]. symmetry. apply run_eq.
  - destruct (force flags); [by rewrite bind_Val | done].
Qed.

Lemma push_reported_run flags newState b :
  bumped b ≠ [] →
  push_reported flags newState b =
    (trace (report_outdated b)
       ++ trace (bind (compute_order flags newState b)
                   (publish_order flags newState)),
     outcome (bind (compute_order flags newState b)
                (publish_order flags newState))).
Proof.
  intros Hne. unfold push_reported.
  rewrite report_outdated_run, bind_Val.
  destruct (decide (length (bumped b) = 0%nat)) as [Hlen | _]; [| done].
  by destruct (bumped b).
Qed.

(** When no same-release finding stops the run and some package is
    bumped, the run is what it logged so far followed by the resolution
    check, the plan and its execution. *)
Lemma runPush_bumped flags args oldState newState t_load changes b :
  load_states args = (t_load, Val (oldState, newState)) →
  Changed oldState newState = ([], Val changes) →
  classify newState changes = ([], Val b) →
  bad b = [] ∨ force flags = true →
  bumped b ≠ [] →
  runPush flags args =
    (t_load ++ [Log Info ("Diffing..." +:+ nl)]
       ++ trace (report_bad flags b) ++ trace (report_outdated b)
       ++ trace (bind (compute_order flags newState b)
                   (publish_order flags newState)),
     outcome (bind (compute_order flags newState b)
                (publish_order flags newState))).
Proof.
  intros Hload Hchanged Hclass Hbad Hbumped.
  rewrite (runPush_classified flags args oldState newState t_load changes b)
    by done.
  rewrite push_classified_run, report_bad_run.
  case_decide as Hnil.
  - by rewrite push_reported_run.
  - destruct Hbad as [? | ->]; [done |]. by rewrite push_reported_run.
Qed.

(** C6, as amended: the resolution check looks at the bumped packages
    only, the packages whose Diff is a new release, among them every
    package the old snapshot does not know that has a positive release,
    and checks their build dependencies against the name index of the new
    snapshot.  The
    failing candidates are reported together, after the check of all of
    them, each with those of its build-dependency names that the new
    snapshot does not know.  The run ends with exit code 1 on this finding
    when [--force] is unset, and goes on behind the report when it is
    set. *)
Theorem unresolved_reported (flags : Flags) (args : list string)
    (oldState newState : State) (t_load : list Event) (changes : list Diff)
    (b : Buckets) :
  load_states args = (t_load, Val (oldState, newState)) →
  Changed oldState newState = ([], Val changes) →
  classify newState changes = ([], Val b) →
  bad b = [] ∨ force flags = true →
  bumped b ≠ [] →
  let unresolved := failing newState (bumped b) in
  let pre := t_load ++ [Log Info ("Diffing..." +:+ nl)]
               ++ trace (report_bad flags b) ++ trace (report_outdated b) in
  let rest := bind (lift_and_order newState b)
                (publish_order flags newState) in
  bumped b = select DiffPred.IsNewRel (Packages newState) changes ∧
  (∀ (i : nat) pkg, Packages newState !! i = Some pkg →
     NameToSrcIdx oldState !! Name pkg = None → 0 < Release pkg →
     pkg ∈ bumped b) ∧
  (∀ pkg, pkg ∈ unresolved ↔
     pkg ∈ bumped b ∧
     ∃ dep, dep ∈ BuildDeps pkg ∧ NameToSrcIdx newState !! dep = None) ∧
  (∀ pkg dep, dep ∈ missing_deps newState pkg ↔
     dep ∈ BuildDeps pkg ∧ NameToSrcIdx newState !! dep = None) ∧
  (unresolved = [] →
     runPush flags args = (pre ++ trace rest, outcome rest)) ∧
  (unresolved ≠ [] → force flags = false →
     runPush flags args
       = (pre ++ unresolved_lines newState unresolved, Exited 1)) ∧
  (unresolved ≠ [] → force flags = true →
     runPush flags args
       = (pre ++ unresolved_lines newState unresolved ++ trace rest,
          outcome rest)).
Proof.
  intros Hload Hchanged Hclass Hbad Hbumped unresolved pre rest.
  pose proof (runPush_bumped flags args oldState newState t_load changes b
                Hload Hchanged Hclass Hbad Hbumped) as Hrun.
  apply classify_inv in Hclass as [_ Hb].
  apply Changed_inv in Hchanged as [_ Hchanges].
  assert (Hsel : bumped b = select DiffPred.IsNewRel (Packages newState) changes)
    by (by rewrite Hb, bumped_classified).
  split; [done |]. split.
  { intros i pkg Hi Hname Hpos. rewrite Hsel. apply list_elem_of_omap.
    exists (Diff_added (Z.of_nat i) pkg). split.
    - apply list_elem_of_filter. split.
      + unfold DiffPred.IsNewRel. simpl. by apply bool_decide_eq_true.
      + assert (Diff_added (Z.of_nat i) pkg ∈ diffs_at changes (Z.of_nat i))
          as Hin.
        { rewrite Hchanges.
          pose proof (diffs_at_expected_from oldState _ 0 i pkg Hi) as Hat.
          rewrite Z.add_0_l in Hat. rewrite Hat. unfold expected_diffs.
          rewrite Hname. left. }
        by apply list_elem_of_filter in Hin as [_ ?].
    - simpl. by rewrite index_of_nat. }
  split.
  { intros pkg. unfold unresolved, failing.
    rewrite list_elem_of_filter, Resolve_false. tauto. }
  split.
  { intros pkg dep. unfold missing_deps. rewrite list_elem_of_filter. tauto. }
  rewrite Hrun, compute_order_run. unfold pre, rest, unresolved.
  split; [| split].
  - intros Hnil. rewrite decide_True by done. by rewrite <- !app_assoc.
  - intros Hne Hforce. rewrite decide_False, Hforce by done.
    cbn [bind trace outcome fst snd]. by rewrite <- !app_assoc.
  - intros Hne Hforce. rewrite decide_False, Hforce by done.
    rewrite bind_prefix. cbn [trace outcome fst snd]. by rewrite <- !app_assoc.
Qed.

(** *** Runs without publication *)

Lemma quiet_ret {A} (a : A) : quiet (ret a).
Proof. constructor. Qed.

Lemma quiet_bind {A B} (m : M A) (f : A → M B) :
  quiet m → (∀ a, quiet (f a)) → quiet (bind m f).
Proof.
  unfold quiet. rewrite trace_bind. intros Hm Hf. apply Forall_app.
  split; [done |]. destruct (outcome m); [apply Hf | constructor ..].
Qed.

Lemma quiet_log l msg : quiet (log l msg).
Proof. repeat constructor. by intros []. Qed.

Lemma quiet_osExit {A} c : quiet (@osExit A c).
Proof. constructor. Qed.

Lemma quiet_panic {A} : quiet (@panic A).
Proof. constructor. Qed.

Lemma quiet_fatalf {A} msg : quiet (@fatalf A msg).
Proof. apply quiet_bind; [apply quiet_log | intros; apply quiet_osExit]. Qed.

Lemma quiet_at_index {A} (xs : list A) i : quiet (at_index xs i).
Proof. unfold at_index. case_match; [apply quiet_ret | apply quiet_panic]. Qed.

Lemma quiet_or_fatal {A} (r : Result A) msg : quiet (or_fatal r msg).
Proof. destruct r; [apply quiet_ret | apply quiet_fatalf]. Qed.

Lemma quiet_range_from {A S} (body : Z → A → S → M S) xs :
  (∀ idx x s, quiet (body idx x s)) →
  ∀ idx s, quiet (range_from body idx xs s).
Proof.
  intros Hbody. induction xs as [| x xs IH]; intros idx s; simpl.
  - apply quiet_ret.
  - apply quiet_bind; [apply Hbody | intros; apply IH].
Qed.

Lemma quiet_for_each {A} (body : A → M unit) xs :
  (∀ x, quiet (body x)) → quiet (for_each body xs).
Proof. intros Hbody. apply quiet_range_from. intros; apply Hbody. Qed.

Lemma quiet_emit e : ¬ is_publish e → quiet (emit e).
Proof. intros He. by repeat constructor. Qed.

Ltac quiet_steps :=
  repeat first
    [ apply quiet_ret | apply quiet_log | apply quiet_osExit
    | apply quiet_panic | apply quiet_fatalf | apply quiet_at_index
    | apply quiet_or_fatal
    | apply quiet_emit; by intros []
    | apply quiet_bind; [| intros ?]
    | apply quiet_for_each; intros ?
    | apply quiet_range_from; intros ? ? ?
    | match goal with H : _ |- quiet _ => apply H end
    | case_match ].

Lemma quiet_LoadState tpath : quiet (LoadState tpath).
Proof. unfold LoadState. quiet_steps. Qed.

Lemma quiet_load_states args : quiet (load_states args).
Proof.
  unfold load_states. pose proof quiet_LoadState as Hload. quiet_steps.
Qed.

Lemma quiet_Changed oldState newState : quiet (Changed oldState newState).
Proof. unfold Changed, range, Changed_body. quiet_steps. Qed.

Lemma quiet_classify newState changes : quiet (classify newState changes).
Proof. unfold classify, range, classify_body. quiet_steps. Qed.

Lemma quiet_print_names pkgs : quiet (print_names pkgs).
Proof. unfold print_names. quiet_steps. Qed.

Lemma quiet_report_bad flags b : quiet (report_bad flags b).
Proof.
  unfold report_bad. pose proof (quiet_print_names (bad b)). quiet_steps.
Qed.

Lemma quiet_report_outdated b : quiet (report_outdated b).
Proof.
  unfold report_outdated. pose proof (quiet_print_names (outdated b)).
  quiet_steps.
Qed.

Lemma quiet_report_unresolved flags newState unresolved :
  quiet (report_unresolved flags newState unresolved).
Proof. unfold report_unresolved, report_unresolved_pkg. quiet_steps. Qed.

Lemma quiet_sort_or_diagnose newState lifted :
  quiet (sort_or_diagnose newState lifted).
Proof.
  unfold sort_or_diagnose, diagnose_cycles, range, report_cycle. quiet_steps.
Qed.

Lemma quiet_compute_order flags newState b :
  quiet (compute_order flags newState b).
Proof.
  unfold compute_order, lift_and_order, print_order, collect_unresolved, range.
  pose proof (quiet_print_names (bumped b)).
  pose proof (quiet_report_unresolved flags newState).
  pose proof (quiet_sort_or_diagnose newState).
  quiet_steps.
Qed.

(** On a dry run no part of the command calls the publisher. *)
Lemma quiet_runPush flags args :
  dryRun flags = true → quiet (runPush flags args).
Proof.
  intros Hdry. unfold runPush.
  apply quiet_bind; [apply quiet_load_states | intros [oldState newState]].
  apply quiet_bind; [apply quiet_log | intros _].
  apply quiet_bind; [apply quiet_Changed | intros changes].
  apply quiet_bind; [apply quiet_classify | intros b].
  unfold push_classified.
  apply quiet_bind; [apply quiet_report_bad | intros _].
  unfold push_reported.
  apply quiet_bind; [apply quiet_report_outdated | intros _].
  case_decide; [apply quiet_log |].
  apply quiet_bind; [apply quiet_compute_order | intros order].
  unfold publish_order. rewrite Hdry. apply quiet_ret.
Qed.

(** *** The plan *)

(** The vertices of the lifted graph are positions of the new snapshot. *)
Lemma positions_lifted newState changes b lifted :
  b = classified (Packages newState) changes no_buckets →
  LiftGraph (DepGraph newState) (bset_at (bset b)) = Ok lifted →
  ∀ v, v ∈ nodes lifted → is_Some (index (Packages newState) v).
Proof.
  intros -> [-> _]%LiftGraph_Ok v [_ Hv]%nodes_induced.
  apply bset_classified in Hv as [Hv | (d & _ & _ & _ & Hpos)]; done.
Qed.

Lemma print_order_run newState order :
  positions (Packages newState) order →
  print_order newState order = (order_lines (Packages newState) order, Val tt).
Proof.
  intros Hpos. unfold print_order, order_lines, log at 1, emit. rewrite bind_Val.
  by rewrite (for_each_positions _ (λ pkg, Log Plain (Name pkg +:+ nl))).
Qed.

Lemma report_cycle_run newState idx cycle k :
  (nontrivial cycle → positions (Packages newState) cycle) →
  report_cycle newState idx cycle k =
    if decide (nontrivial cycle)
    then (cycle_block (Packages newState) (k + 1) cycle, Val (k + 1))
    else ([], Val k).
Proof.
  intros Hpos. unfold report_cycle, nontrivial in *.
  destruct (decide (Z.of_nat (length cycle) ≤ 1)) as [Hle | Hgt].
  - rewrite decide_False by lia. done.
  - rewrite decide_True by lia. unfold log at 1, emit. rewrite bind_Val.
    rewrite (for_each_positions _ name_line) by (apply Hpos; lia).
    rewrite bind_Val. unfold log, emit. rewrite bind_Val.
    unfold cycle_block, name_lines. simpl. done.
Qed.

(** The loop over the components reports the non-trivial ones, numbered
    from one past its counter, and no other. *)
Lemma report_cycles_run newState cycles : ∀ idx k,
  Forall (λ c, nontrivial c → positions (Packages newState) c) cycles →
  range_from (report_cycle newState) idx cycles k =
    (cycle_blocks (Packages newState) (k + 1) (filter nontrivial cycles),
     Val (k + Z.of_nat (length (filter nontrivial cycles)))).
Proof.
  induction cycles as [| c cycles IH]; intros idx k Hpos; simpl.
  { by rewrite Z.add_0_r. }
  apply Forall_cons in Hpos as [Hc Hpos].
  rewrite report_cycle_run by done. destruct (decide (nontrivial c)) as [Hn | Hn].
  - rewrite filter_cons_True by done. rewrite bind_Val, IH by done. simpl.
    do 2 f_equal. lia.
  - rewrite filter_cons_False by done. by rewrite (bind_ret k), IH.
Qed.

Lemma diagnose_cycles_run {A} newState lifted err cycles :
  StronglyConnectedComponents lifted = Ok cycles →
  Forall (λ c, nontrivial c → positions (Packages newState) c) cycles →
  @diagnose_cycles _ A newState lifted err =
    ([CreateFile "lifted.gv"; DrawDOT lifted]
       ++ cycle_blocks (Packages newState) 1 (filter nontrivial cycles)
       ++ [Log Fatal ("Failed to compute build order: " +:+ err +:+ nl)],
     Exited 1).
Proof.
  intros Hscc Hpos. unfold diagnose_cycles, emit. rewrite !bind_Val, Hscc.
  unfold range. rewrite report_cycles_run by done.
  unfold fatalf, log, emit, osExit. cbn [bind ret trace outcome fst snd].
  by rewrite !app_nil_r.
Qed.

Lemma compute_order_continue flags newState b :
  failing newState (bumped b) = [] ∨ force flags = true →
  compute_order flags newState b =
    (trace (report_unresolved flags newState (failing newState (bumped b)))
       ++ trace (lift_and_order newState b),
     outcome (lift_and_order newState b)).
Proof.
  intros Hgo. rewrite compute_order_run, report_unresolved_run.
  case_decide; [apply run_eq |]. by destruct Hgo as [? | ->].
Qed.

Lemma lift_and_order_run newState b lifted :
  LiftGraph (DepGraph newState) (bset_at (bset b)) = Ok lifted →
  lift_and_order newState b =
    (plan_lines b
       ++ trace (bind (sort_or_diagnose newState lifted)
                   (λ order, bind (print_order newState order) (λ _, ret order))),
     outcome (bind (sort_or_diagnose newState lifted)
                (λ order, bind (print_order newState order) (λ _, ret order)))).
Proof.
  intros Hlift. unfold lift_and_order, plan_lines, log, emit. cbv zeta.
  rewrite bind_Val, print_names_run, !bind_Val, Hlift. simpl or_fatal.
  rewrite (bind_ret lifted), bind_Val. cbn [trace outcome fst snd].
  f_equal. simpl. by rewrite <- app_assoc.
Qed.

(** When no finding stops the run and the lifting succeeds, the run is
    what it logged so far followed by the sort, the printed order and the
    publication. *)
Lemma runPush_planned flags args oldState newState t_load changes b lifted :
  load_states args = (t_load, Val (oldState, newState)) →
  Changed oldState newState = ([], Val changes) →
  classify newState changes = ([], Val b) →
  bad b = [] ∨ force flags = true →
  bumped b ≠ [] →
  failing newState (bumped b) = [] ∨ force flags = true →
  LiftGraph (DepGraph newState) (bset_at (bset b)) = Ok lifted →
  runPush flags args =
    (before_sort flags newState b t_load
       ++ trace (bind (sort_or_diagnose newState lifted)
                   (λ order, bind (print_order newState order)
                               (λ _, publish_order flags newState order))),
     outcome (bind (sort_or_diagnose newState lifted)
                (λ order, bind (print_order newState order)
                            (λ _, publish_order flags newState order)))).
Proof.
  intros Hload Hchanged Hclass Hbad Hbumped Hres Hlift.
  rewrite (runPush_bumped flags args oldState newState t_load changes b) by done.
  rewrite compute_order_continue by done.
  rewrite (lift_and_order_run newState b lifted) by done.
  cbn [trace outcome fst snd].
  rewrite (app_assoc _ (plan_lines b)), bind_prefix.
  cbn [trace outcome fst snd]. rewrite bind_assoc.
  assert (∀ order,
            bind (bind (print_order newState order) (λ _, ret order))
              (publish_order flags newState)
            = bind (print_order newState order)
                (λ _, publish_order flags newState order)) as Hk.
  { intros order. rewrite bind_assoc. apply bind_ext. intros _.
    by rewrite bind_ret. }
  rewrite (bind_ext _ _ _ Hk). unfold before_sort.
  by rewrite <- !app_assoc.
Qed.

Lemma cycle_blocks_member pkgs cycles : ∀ k c v pkg,
  c ∈ cycles → v ∈ c → index pkgs v = Some pkg →
  name_line pkg ∈ cycle_blocks pkgs k cycles.
Proof.
  induction cycles as [| c0 cycles IH]; intros k c v pkg Hc Hv Hpkg;
    cbn [cycle_blocks].
  { by apply elem_of_nil in Hc. }
  apply elem_of_app. apply elem_of_cons in Hc as [<- | Hc].
  - left. unfold cycle_block. right. apply elem_of_app. left.
    unfold name_lines. apply list_elem_of_fmap_2. apply list_elem_of_omap. eauto.
  - right. by eapply IH.
Qed.

(** Two components that share a vertex have the same members. *)
Lemma is_scc_shared g c c' v :
  is_scc g c → is_scc g c' → v ∈ c → v ∈ c' → c' ≡ₚ c.
Proof.
  intros (Hnd & _ & Hn & Hc) (Hnd' & _ & Hn' & Hc') Hv Hv'.
  apply NoDup_Permutation; [done | done |]. intros w. split; intros Hw.
  - apply (Hc v w Hv (Hn' w Hw)). by apply (Hc' v w Hv' (Hn' w Hw)).
  - apply (Hc' v w Hv' (Hn w Hw)). by apply (Hc v w Hv (Hn w Hw)).
Qed.

(** The report of a list of components contains the report of each of
    them, under a number not below the first. *)
Lemma cycle_blocks_block pkgs cycles : ∀ k c,
  c ∈ cycles →
  ∃ k' t1 t2, k ≤ k' ∧
    cycle_blocks pkgs k cycles = t1 ++ cycle_block pkgs k' c ++ t2.
Proof.
  induction cycles as [| c0 cycles IH]; intros k c Hc;
    [by apply elem_of_nil in Hc |].
  cbn [cycle_blocks]. apply elem_of_cons in Hc as [-> | Hc].
  - exists k, [], (cycle_blocks pkgs (k + 1) cycles). split; [lia | done].
  - destruct (IH (k + 1) c Hc) as (k' & t1 & t2 & Hk & ->).
    exists k', (cycle_block pkgs k c0 ++ t1), t2. split; [lia |].
    by rewrite <- app_assoc.
Qed.

Lemma cycle_block_member pkgs k c v pkg :
  v ∈ c → index pkgs v = Some pkg → name_line pkg ∈ cycle_block pkgs k c.
Proof.
  intros Hv Hpkg. unfold cycle_block. right. apply elem_of_app. left.
  unfold name_lines. apply list_elem_of_fmap_2. apply list_elem_of_omap. eauto.
Qed.

(** C4, as amended: when the sort of the lifted graph fails, the run ends
    with [waterlog.Fatalf], exit code 1, whatever [--force] says.  Before
    that it exports the graph and asks for the components of the lifted
    graph.  When that call succeeds, [cycles] being its result, the run
    reports the entries of [cycles] with at least two members, numbered
    from 1 and each with the names of all its members, and reports none of
    the others; so, when [cycles] is a decomposition of the lifted graph
    into strongly connected components, every strongly connected
    component with at least two members is reported, under its own number
    and with the names of its members.  When the call fails, the run ends
    the same way without any report. *)
Theorem cycle_is_fatal (flags : Flags) (args : list string)
    (oldState newState : State) (t_load : list Event) (changes : list Diff)
    (b : Buckets) (lifted : Graph) (err : string) :
  load_states args = (t_load, Val (oldState, newState)) →
  Changed oldState newState = ([], Val changes) →
  classify newState changes = ([], Val b) →
  bad b = [] ∨ force flags = true →
  bumped b ≠ [] →
  failing newState (bumped b) = [] ∨ force flags = true →
  LiftGraph (DepGraph newState) (bset_at (bset b)) = Ok lifted →
  TopologicalSort lifted = Err err →
  (∀ cycles,
     StronglyConnectedComponents lifted = Ok cycles →
     components_of lifted cycles →
     runPush flags args =
       (before_sort flags newState b t_load
          ++ [CreateFile "lifted.gv"; DrawDOT lifted]
          ++ cycle_blocks (Packages newState) 1 (filter nontrivial cycles)
          ++ [Log Fatal ("Failed to compute build order: " +:+ err +:+ nl)],
        Exited 1) ∧
     (∀ c, c ∈ filter nontrivial cycles ↔ c ∈ cycles ∧ (2 ≤ length c)%nat) ∧
     (∀ c v, c ∈ cycles → (2 ≤ length c)%nat → v ∈ c →
        ∃ pkg, index (Packages newState) v = Some pkg ∧
          name_line pkg
            ∈ cycle_blocks (Packages newState) 1 (filter nontrivial cycles)) ∧
     (scc_decomposition lifted cycles →
      ∀ c, is_scc lifted c → (2 ≤ length c)%nat →
        ∃ c' k t1 t2,
          c' ∈ cycles ∧ c' ≡ₚ c ∧ 1 ≤ k ∧
          cycle_blocks (Packages newState) 1 (filter nontrivial cycles)
            = t1 ++ cycle_block (Packages newState) k c' ++ t2 ∧
          ∀ v, v ∈ c →
            ∃ pkg, index (Packages newState) v = Some pkg ∧
              name_line pkg ∈ cycle_block (Packages newState) k c')) ∧
  (∀ e,
     StronglyConnectedComponents lifted = Err e →
     runPush flags args =
       (before_sort flags newState b t_load
          ++ [CreateFile "lifted.gv"; DrawDOT lifted;
              Log Fatal ("Failed to compute build order: " +:+ err +:+ nl)],
        Exited 1)).
Proof.
  intros Hload Hchanged Hclass Hbad Hbumped Hres Hlift Hsort.
  pose proof (runPush_planned flags args oldState newState t_load changes b
                lifted Hload Hchanged Hclass Hbad Hbumped Hres Hlift) as Hrun.
  apply classify_inv in Hclass as [_ Hb].
  pose proof (positions_lifted newState changes b lifted Hb Hlift) as Hpos.
  unfold sort_or_diagnose in Hrun. rewrite Hsort in Hrun. split.
  - intros cycles Hscc Hcomp.
    assert (Forall (λ c, nontrivial c → positions (Packages newState) c) cycles)
      as Hvalid.
    { eapply Forall_impl; [exact Hcomp |]. intros c Hc _.
      eapply Forall_impl; [exact Hc |]. intros v Hv. by apply Hpos. }
    rewrite (diagnose_cycles_run newState lifted err cycles) in Hrun by done.
    split; [| split; [| split]].
    + rewrite Hrun. cbn [bind trace outcome fst snd]. done.
    + intros c. unfold nontrivial. by rewrite list_elem_of_filter, (comm and).
    + intros c v Hc Hlen Hv.
      unfold components_of in Hcomp. rewrite Forall_forall in Hcomp.
      pose proof (Hcomp c Hc) as Hcv. rewrite Forall_forall in Hcv.
      destruct (Hpos v (Hcv v Hv)) as [pkg Hpkg]. exists pkg. split; [done |].
      apply (cycle_blocks_member _ _ _ c v); [| done | done].
      by apply list_elem_of_filter.
    + intros [Hsccs Hcover] c Hc Hlen.
      destruct c as [| v0 c0]; [simpl in Hlen; lia |].
      assert (v0 ∈ v0 :: c0) as Hv0 by left.
      pose proof Hc as (_ & _ & Hn & _).
      destruct (Hcover v0 (Hn v0 Hv0)) as (c' & Hc' & Hv0').
      rewrite Forall_forall in Hsccs. pose proof (Hsccs c' Hc') as Hscc'.
      pose proof (is_scc_shared lifted (v0 :: c0) c' v0 Hc Hscc' Hv0 Hv0')
        as Hperm.
      assert (nontrivial c') as Hnt by (unfold nontrivial; by rewrite Hperm).
      destruct (cycle_blocks_block (Packages newState)
                  (filter nontrivial cycles) 1 c')
        as (k & t1 & t2 & Hk & Heq); [by apply list_elem_of_filter |].
      exists c', k, t1, t2. do 4 (split; [done |]).
      intros v Hv. destruct (Hpos v (Hn v Hv)) as [pkg Hpkg].
      exists pkg. split; [done |]. apply (cycle_block_member _ _ _ v); [| done].
      by rewrite Hperm.
  - intros e Hscc. rewrite Hrun. unfold diagnose_cycles. rewrite Hscc.
    unfold fatalf, log, emit, osExit. cbn [bind ret trace outcome fst snd app].
    done.
Qed.

(** C9: [--dry-run] defaults to true, and a run with the flag set never
    calls the publisher; when it gets as far as a successful sort of the
    lifted graph it prints the build order, the names of the packages in
    that order, and returns. *)
Theorem dry_run_publishes_nothing (flags : Flags) (args : list string) :
  dryRun flags = true →
  dryRun init = true ∧
  quiet (runPush flags args) ∧
  ∀ oldState newState t_load changes b lifted order,
    load_states args = (t_load, Val (oldState, newState)) →
    Changed oldState newState = ([], Val changes) →
    classify newState changes = ([], Val b) →
    bad b = [] ∨ force flags = true →
    bumped b ≠ [] →
    failing newState (bumped b) = [] ∨ force flags = true →
    LiftGraph (DepGraph newState) (bset_at (bset b)) = Ok lifted →
    TopologicalSort lifted = Ok order →
    runPush flags args =
      (before_sort flags newState b t_load
         ++ order_lines (Packages newState) order,
       Val tt).
Proof.
  intros Hdry. split; [done |]. split; [by apply quiet_runPush |].
  intros oldState newState t_load changes b lifted order
    Hload Hchanged Hclass Hbad Hbumped Hres Hlift Hsort.
  rewrite (runPush_planned flags args oldState newState t_load changes b lifted)
    by done.
  apply classify_inv in Hclass as [_ Hb].
  pose proof (positions_lifted newState changes b lifted Hb Hlift) as Hpos.
  apply TopologicalSort_Ok_order in Hsort as Hord. destruct Hord as (_ & Hel & _).
  unfold sort_or_diagnose. rewrite Hsort, bind_ret, print_order_run.
  - unfold publish_order. rewrite Hdry, bind_Val. simpl.
    by rewrite app_nil_r.
  - apply Forall_forall. intros v Hv. by apply Hpos, Hel.
Qed.

End PushRuns.

(** ** The scenarios, run *)

Lemma anomaly_reported_witness :
  ∃ b,
    Scenario.pkgB ∈ bad b ∧
    bset_at (bset b) 1 = false ∧
    @runPush Scenario.collaborators init ["src:old"; "bin:new"] =
      (trace (@load_states Scenario.collaborators ["src:old"; "bin:new"])
         ++ [Log Info ("Diffing..." +:+ nl)] ++ bad_lines (bad b),
       Exited 1).
Proof.
  destruct (@anomaly_reported Scenario.collaborators init ["src:old"; "bin:new"]
              Scenario.oldState Scenario.newState
              (trace (@load_states Scenario.collaborators ["src:old"; "bin:new"]))
              1%nat Scenario.pkgB (mkPackage "pkgB" "2.0" 3 []) 1)
    as (changes & b & _ & _ & Hbad & _ & Hbset & _ & _ & _ & Hstop & _).
  - by vm_compute.
  - compute_done.
  - reflexivity.
  - reflexivity.
  - reflexivity.
  - reflexivity.
  - simpl. discriminate.
  - exists b. split; [exact Hbad |]. split; [exact Hbset |].
    apply Hstop. reflexivity.
Defined.

Lemma unresolved_reported_witness :
  let b := classified (Packages Scenario.newState)
             (expected_from Scenario.oldState 0 (Packages Scenario.newState))
             no_buckets in
  failing Scenario.newState (bumped b) = [Scenario.pkgN] ∧
  missing_deps Scenario.newState Scenario.pkgN = ["pkgX"; "pkgY"] ∧
  ∃ pre rest,
    @runPush Scenario.collaborators (mkFlags true true) ["src:old"; "bin:new"] =
      (pre ++ unresolved_lines Scenario.newState [Scenario.pkgN] ++ rest, Val tt).
Proof.
  intros b.
  assert (Hfail : failing Scenario.newState (bumped b) = [Scenario.pkgN])
    by by vm_compute.
  split; [exact Hfail |]. split; [by vm_compute |].
  destruct (@unresolved_reported Scenario.collaborators (mkFlags true true)
              ["src:old"; "bin:new"] Scenario.oldState Scenario.newState
              (trace (@load_states Scenario.collaborators ["src:old"; "bin:new"]))
              (expected_from Scenario.oldState 0 (Packages Scenario.newState)) b)
    as (_ & _ & _ & _ & _ & _ & Hforced).
  - by vm_compute.
  - by vm_compute.
  - by vm_compute.
  - right. reflexivity.
  - by vm_compute.
  - assert (failing Scenario.newState (bumped b) ≠ []) as Hne
      by (rewrite Hfail; discriminate).
    pose proof (Hforced Hne eq_refl) as Hrun. rewrite Hfail in Hrun.
    eexists _, _. rewrite Hrun. apply f_equal2; [reflexivity | by vm_compute].
Defined.

(** C6, as stated, fails for a package that the old snapshot does not know
    and whose release is 0.  The Diff of [pkgZ] carries the old release 0,
    as that of a package matched under the same release would, so it is
    not a new release: [pkgZ] goes to the same-release findings, not to
    the candidates.  The forced run checks [pkgP] alone and logs nothing
    at level [Error], although [ghost], a build dependency of [pkgZ], is
    unknown to the new snapshot. *)
Lemma unresolved_reported_counterexample :
  let run := @runPush ScenarioZ.collaborators (mkFlags true true)
               ["src:old"; "src:new"] in
  Packages ScenarioZ.newState !! 1%nat = Some ScenarioZ.pkgZ ∧
  NameToSrcIdx Scenario.emptyState !! Name ScenarioZ.pkgZ = None ∧
  missing_deps ScenarioZ.newState ScenarioZ.pkgZ = ["ghost"] ∧
  Changed Scenario.emptyState ScenarioZ.newState
    = ([], Val [Diff_added 0 ScenarioZ.pkgP; Diff_added 1 ScenarioZ.pkgZ]) ∧
  Diff_added 1 ScenarioZ.pkgZ
    = Diff_matched 1 0 ScenarioZ.pkgZ (mkPackage "pkgZ" "" 0 []) ∧
  DiffPred.IsNewRel (Diff_added 1 ScenarioZ.pkgZ) = false ∧
  run =
    ([ CallLoad "src" "old";
       Log Good ("Successfully parsed old state!" +:+ nl);
       CallLoad "src" "new";
       Log Good ("Successfully parsed new state!" +:+ nl);
       Log Info ("Diffing..." +:+ nl);
       Log Warn "The following packages have the same release number but different version:";
       Log Plain " pkgZ"; Log Plain nl;
       Log Good "The following packages will be updated:";
       Log Plain " pkgP"; Log Plain nl;
       Log Good ("Successfully generated dependency graph!" +:+ nl);
       Log Good ("Successfully isolated packages to update!" +:+ nl);
       Log Good ("Here's the build order:" +:+ nl);
       Log Plain ("pkgP" +:+ nl) ],
     Val tt) ∧
  Forall (λ e, ¬ logged_at Error e) (trace run).
Proof.
  intros run. do 6 (split; [by vm_compute |]).
  assert (Hrun : run =
    ([ CallLoad "src" "old";
       Log Good ("Successfully parsed old state!" +:+ nl);
       CallLoad "src" "new";
       Log Good ("Successfully parsed new state!" +:+ nl);
       Log Info ("Diffing..." +:+ nl);
       Log Warn "The following packages have the same release number but different version:";
       Log Plain " pkgZ"; Log Plain nl;
       Log Good "The following packages will be updated:";
       Log Plain " pkgP"; Log Plain nl;
       Log Good ("Successfully generated dependency graph!" +:+ nl);
       Log Good ("Successfully isolated packages to update!" +:+ nl);
       Log Good ("Here's the build order:" +:+ nl);
       Log Plain ("pkgP" +:+ nl) ],
     Val tt)) by (by vm_compute).
  split; [exact Hrun |]. rewrite Hrun. cbn [trace fst]. compute_done.
Qed.

Lemma edge_lookup (g : Graph) u v outs :
  g !! u = Some outs → edge g u v ↔ v ∈ outs.
Proof.
  intros Hu. unfold edge. split.
  - intros (outs' & Hu' & Hv). by simplify_eq.
  - eauto.
Qed.

(** The dependency graph of scenario E: positions 0 and 1 reach each
    other, nothing leaves position 2. *)
Lemma scenarioE_components :
  let g := DepGraph ScenarioE.newState in
  scc_decomposition g ScenarioE.components ∧ is_scc g [0; 1].
Proof.
  intros g.
  assert (H01 : edge g 0 1) by (by apply (edge_lookup g 0 1 {[1]})).
  assert (H10 : edge g 1 0) by (by apply (edge_lookup g 1 0 {[0]})).
  assert (Hnodes : ∀ v, v ∈ nodes g ↔ v = 0 ∨ v = 1 ∨ v = 2).
  { intros v. unfold nodes, g. simpl.
    rewrite !dom_insert, dom_singleton, !elem_of_union, !elem_of_singleton.
    tauto. }
  assert (Hpair : ∀ v : Z, v ∈ [0; 1] ↔ v = 0 ∨ v = 1).
  { intros v. rewrite !elem_of_cons, elem_of_nil. tauto. }
  assert (Hlone : ∀ v : Z, v ∈ [2] ↔ v = 2).
  { intros v. rewrite elem_of_cons, elem_of_nil. tauto. }
  assert (H2 : ∀ v, rtc (edge g) 2 v → v = 2).
  { intros v Hv. apply rtc_inv in Hv as [Hv | (y & Hy & _)]; [done |].
    apply (edge_lookup g 2 y ∅) in Hy; [| done].
    by apply elem_of_empty in Hy. }
  assert (Hloop : ∀ u v, (u = 0 ∨ u = 1) → (v = 0 ∨ v = 1) →
                    rtc (edge g) u v).
  { intros u v [-> | ->] [-> | ->];
      first [ apply rtc_refl | by apply rtc_once ]. }
  assert (Hscc : is_scc g [0; 1]).
  { split; [| split; [| split]].
    - apply NoDup_cons. split; [| apply NoDup_singleton].
      rewrite elem_of_cons, elem_of_nil. intros [? | []]. lia.
    - done.
    - intros u Hu. apply Hnodes. apply Hpair in Hu. tauto.
    - intros u v Hu Hv. apply Hpair in Hu. apply Hnodes in Hv.
      rewrite Hpair. unfold strongly_connected. split.
      + intros Hv'. split; by apply Hloop.
      + intros [_ Hback]. destruct Hv as [-> | [-> | ->]]; [tauto | tauto |].
        apply H2 in Hback. lia. }
  split; [| done]. split.
  - apply Forall_cons. split; [| by apply Forall_singleton].
    split; [| split; [| split]].
    + apply NoDup_singleton.
    + done.
    + intros u Hu. apply Hnodes. apply Hlone in Hu. tauto.
    + intros u v Hu Hv. apply Hlone in Hu as ->. rewrite Hlone.
      unfold strongly_connected. split.
      * intros ->. split; apply rtc_refl.
      * intros [Hto _]. by apply H2.
  - intros v Hv. unfold ScenarioE.components. apply Hnodes in Hv.
    destruct Hv as [-> | [-> | ->]].
    + exists [0; 1]. split; [| by apply Hpair; left].
      apply elem_of_cons. right. apply elem_of_cons. by left.
    + exists [0; 1]. split; [| by apply Hpair; right].
      apply elem_of_cons. right. apply elem_of_cons. by left.
    + exists [2]. split; [apply elem_of_cons; by left | by apply Hlone].
Qed.

Lemma cycle_is_fatal_witness :
  ∃ pre lifted err,
    scc_decomposition lifted ScenarioE.components ∧
    is_scc lifted [0; 1] ∧
    @runPush ScenarioE.collaborators (mkFlags true false) ["src:old"; "src:new"] =
      (pre ++ [CreateFile "lifted.gv"; DrawDOT lifted]
         ++ cycle_block (Packages ScenarioE.newState) 1 [0; 1]
         ++ [Log Fatal ("Failed to compute build order: " +:+ err +:+ nl)],
       Exited 1) ∧
    ∃ c' k t1 t2,
      c' ∈ ScenarioE.components ∧ c' ≡ₚ [0; 1] ∧ 1 ≤ k ∧
      cycle_blocks (Packages ScenarioE.newState) 1
          (filter nontrivial ScenarioE.components)
        = t1 ++ cycle_block (Packages ScenarioE.newState) k c' ++ t2 ∧
      ∀ v, v ∈ [0; 1] →
        ∃ pkg, index (Packages ScenarioE.newState) v = Some pkg ∧
          name_line pkg ∈ cycle_block (Packages ScenarioE.newState) k c'.
Proof.
  set (changes := expected_from ScenarioE.oldState 0 (Packages ScenarioE.newState)).
  set (b := classified (Packages ScenarioE.newState) changes no_buckets).
  set (lifted := induced (DepGraph ScenarioE.newState) (bset_at (bset b))).
  assert (Hlifted : lifted = DepGraph ScenarioE.newState) by (by vm_compute).
  destruct scenarioE_components as [Hdec Hpair]. rewrite <- Hlifted in Hdec, Hpair.
  destruct (@cycle_is_fatal ScenarioE.collaborators (mkFlags true false)
              ["src:old"; "src:new"] ScenarioE.oldState ScenarioE.newState
              (trace (@load_states ScenarioE.collaborators ["src:old"; "src:new"]))
              changes b lifted
              "topological sort cannot be computed on graph with cycles")
    as [Hreport _].
  - by vm_compute.
  - by vm_compute.
  - by vm_compute.
  - left. by vm_compute.
  - by vm_compute.
  - left. by vm_compute.
  - apply LiftGraph_closed. compute_done.
  - by vm_compute.
  - destruct (Hreport ScenarioE.components) as (Hrun & _ & _ & Hsccs);
      [reflexivity | compute_done |].
    exists (before_sort (mkFlags true false) ScenarioE.newState b
              (trace (@load_states ScenarioE.collaborators ["src:old"; "src:new"]))),
      lifted, "topological sort cannot be computed on graph with cycles".
    split; [exact Hdec |]. split; [exact Hpair |]. split.
    + rewrite Hrun. apply f_equal2; [| reflexivity].
      do 2 (apply f_equal2; [reflexivity |]). by vm_compute.
    + apply (Hsccs Hdec [0; 1] Hpair). simpl. lia.
Defined.

(** C4, as stated, fails where the computation of the components fails.
    In scenario E the three packages get a new release, so the lifted
    graph is the whole dependency graph; positions 0 and 1 form one of its
    strongly connected components and the sort fails.  With a graph
    library that returns an error for the components, the run draws the
    graph and ends at once: it logs no line at level [Debug], hence no
    component. *)
Lemma cycle_is_fatal_counterexample :
  let g := DepGraph ScenarioE.newState in
  let run := @runPush ScenarioS.collaborators (mkFlags true false)
               ["src:old"; "src:new"] in
  TopologicalSort g
    = Err "topological sort cannot be computed on graph with cycles" ∧
  is_scc g [0; 1] ∧
  run =
    ([ CallLoad "src" "old";
       Log Good ("Successfully parsed old state!" +:+ nl);
       CallLoad "src" "new";
       Log Good ("Successfully parsed new state!" +:+ nl);
       Log Info ("Diffing..." +:+ nl);
       Log Good "The following packages will be updated:";
       Log Plain " pkgG"; Log Plain " pkgH"; Log Plain " pkgI"; Log Plain nl;
       Log Good ("Successfully generated dependency graph!" +:+ nl);
       Log Good ("Successfully isolated packages to update!" +:+ nl);
       CreateFile "lifted.gv";
       DrawDOT g;
       Log Fatal ("Failed to compute build order: "
                    +:+ "topological sort cannot be computed on graph with cycles"
                    +:+ nl) ],
     Exited 1) ∧
  Forall (λ e, ¬ logged_at Debug e) (trace run).
Proof.
  intros g run. split; [by vm_compute |].
  split; [apply scenarioE_components |].
  assert (Hrun : run =
    ([ CallLoad "src" "old";
       Log Good ("Successfully parsed old state!" +:+ nl);
       CallLoad "src" "new";
       Log Good ("Successfully parsed new state!" +:+ nl);
       Log Info ("Diffing..." +:+ nl);
       Log Good "The following packages will be updated:";
       Log Plain " pkgG"; Log Plain " pkgH"; Log Plain " pkgI"; Log Plain nl;
       Log Good ("Successfully generated dependency graph!" +:+ nl);
       Log Good ("Successfully isolated packages to update!" +:+ nl);
       CreateFile "lifted.gv";
       DrawDOT g;
       Log Fatal ("Failed to compute build order: "
                    +:+ "topological sort cannot be computed on graph with cycles"
                    +:+ nl) ],
     Exited 1)) by (by vm_compute).
  split; [exact Hrun |]. rewrite Hrun. cbn [trace fst]. compute_done.
Qed.

Lemma dry_run_publishes_nothing_witness :
  quiet (@runPush ScenarioD.collaborators init ["src:old"; "src:new"]) ∧
  ∃ pre,
    @runPush ScenarioD.collaborators init ["src:old"; "src:new"] =
      (pre ++ order_lines (Packages ScenarioD.newState) [1; 0], Val tt).
Proof.
  set (changes := expected_from ScenarioD.oldState 0 (Packages ScenarioD.newState)).
  set (b := classified (Packages ScenarioD.newState) changes no_buckets).
  set (lifted := induced (DepGraph ScenarioD.newState) (bset_at (bset b))).
  destruct (@dry_run_publishes_nothing ScenarioD.collaborators init
              ["src:old"; "src:new"])
    as (_ & Hquiet & Hplan); [reflexivity |].
  split; [exact Hquiet |].
  eexists. apply (Hplan ScenarioD.oldState ScenarioD.newState
                    (trace (@load_states ScenarioD.collaborators
                              ["src:old"; "src:new"]))
                    changes b lifted).
  - by vm_compute.
  - by vm_compute.
  - by vm_compute.
  - left. by vm_compute.
  - by vm_compute.
  - left. by vm_compute.
  - apply LiftGraph_closed. compute_done.
  - by vm_compute.
Defined.

(** * Further properties *)

(** ** Snapshot references, continued *)

Lemma Split_free s sep : free_of sep s → Split s sep = [s].
Proof.
  unfold free_of. induction s as [| c r IH]; simpl; [done |].
  case_decide; [done |]. intros Hr. by rewrite IH.
Qed.

Lemma Split_sep a b sep :
  free_of sep a → Split (a +:+ String sep b) sep = a :: Split b sep.
Proof.
  unfold free_of. induction a as [| c r IH]; simpl.
  - intros _. by rewrite decide_True.
  - case_decide; [done |]. intros Hr. by rewrite IH.
Qed.

Lemma kinds_free kind : kind ∈ kinds → free_of colon kind.
Proof.
  unfold kinds. intros Hin.
  repeat (apply elem_of_cons in Hin as [-> | Hin]; [by vm_compute |]).
  by apply elem_of_nil in Hin.
Qed.

(** The shapes of a string whose split has at most two fields. *)
Lemma Split_short tpath :
  (length (Split tpath colon) ≤ 2)%nat →
  (Split tpath colon = [tpath] ∧ free_of colon tpath) ∨
  ∃ kind path, Split tpath colon = [kind; path] ∧ tpath = tpath_of kind path
               ∧ free_of colon kind ∧ free_of colon path.
Proof.
  intros Hlen. pose proof (Join_Split tpath colon) as Hjoin.
  pose proof (Split_fields tpath colon) as Hfields.
  pose proof (Split_nonempty tpath colon) as Hne.
  destruct (Split tpath colon) as [| kind [| path [| extra rest]]];
    [done | | | simpl in Hlen; lia].
  - left. simpl in Hjoin. subst kind. split; [done |]. apply Hfields. left.
  - right. exists kind, path. simpl in Hjoin. split; [done |].
    split; [done |]. split; apply Hfields; [left | right; left].
Qed.

Lemma ValidTPath_tpath_of kind path :
  kind ∈ kinds → free_of colon path →
  ValidTPath (tpath_of kind path) = true ∧
  Split (tpath_of kind path) colon = [kind; path].
Proof.
  intros Hin Hp.
  assert (Split (tpath_of kind path) colon = [kind; path]) as Hs.
  { unfold tpath_of. rewrite Split_sep by by apply kinds_free.
    by rewrite (Split_free path). }
  split; [| done]. apply ValidTPath_true. rewrite Hs.
  split; [simpl; lia | by exists kind].
Qed.

Lemma ValidTPath_kind kind :
  kind ∈ kinds → ValidTPath kind = true ∧ Split kind colon = [kind].
Proof.
  intros Hin. pose proof (Split_free kind colon (kinds_free kind Hin)) as Hs.
  split; [| done]. apply ValidTPath_true. rewrite Hs.
  split; [simpl; lia | by exists kind].
Qed.

Lemma tpath_of_not_free kind path : ¬ free_of colon (tpath_of kind path).
Proof.
  unfold free_of, tpath_of. induction kind as [| c r IH]; simpl.
  - done.
  - by case_decide.
Qed.

(** X1: [ValidTPath] accepts exactly the bare kinds [src], [bin], [repo]
    and the strings [kind:path] made of such a kind and a colon-free path
    (the empty path included). *)
Theorem ValidTPath_shape (tpath : string) :
  ValidTPath tpath = true ↔
    ∃ kind, kind ∈ kinds ∧
      (tpath = kind ∨ ∃ path, free_of colon path ∧ tpath = tpath_of kind path).
Proof.
  rewrite ValidTPath_true. split.
  - intros (Hlen & kind & Hk & Hin). exists kind. split; [done |].
    destruct (Split_short tpath Hlen) as [[Hs _] | (k & path & Hs & -> & _ & Hp)];
      rewrite Hs in Hk; injection Hk as <-; [by left |].
    right. by exists path.
  - intros (kind & Hin & [-> | (path & Hp & ->)]); apply ValidTPath_true.
    + by apply ValidTPath_kind.
    + by apply ValidTPath_tpath_of.
Qed.

(** X2: for a colon-free path, [LoadState] on [src:path], [bin:path] and
    [repo:path] makes one call, to the loader of that kind and with that
    very path, and hands back what the loader returns. *)
Theorem LoadState_dispatch `{Collaborators} (path : string) :
  free_of colon path →
  LoadState (tpath_of "src" path) = ([CallLoad "src" path], Val (LoadSource path)) ∧
  LoadState (tpath_of "bin" path) = ([CallLoad "bin" path], Val (LoadBinary path)) ∧
  LoadState (tpath_of "repo" path)
    = ([CallLoad "repo" path], Val (LoadEopkgRepo path)).
Proof.
  intros Hp. split; [| split].
  - destruct (ValidTPath_tpath_of "src" path) as [Hv Hs]; [compute_done | done |].
    unfold LoadState. by rewrite Hv, Hs.
  - destruct (ValidTPath_tpath_of "bin" path) as [Hv Hs]; [compute_done | done |].
    unfold LoadState. by rewrite Hv, Hs.
  - destruct (ValidTPath_tpath_of "repo" path) as [Hv Hs]; [compute_done | done |].
    unfold LoadState. by rewrite Hv, Hs.
Qed.

Lemma LoadState_dispatch_witness :
  @LoadState Scenario.collaborators (tpath_of "bin" "new")
    = ([CallLoad "bin" "new"], Val (Ok Scenario.newState)).
Proof.
  destruct (@LoadState_dispatch Scenario.collaborators "new") as (_ & Hbin & _);
    [by vm_compute |].
  exact Hbin.
Defined.

(** The outcomes of [LoadState], by the shape of the tpath. *)
Lemma LoadState_cases `{Collaborators} (tpath : string) :
  (ValidTPath tpath = false ∧ (tpath ∉ kinds) ∧
   LoadState tpath = ([], Val (Err InvalidTPathError))) ∨
  (tpath ∈ kinds ∧ LoadState tpath = ([], Panicked)) ∨
  (∃ kind path r, tpath = tpath_of kind path ∧ kind ∈ kinds ∧ (tpath ∉ kinds) ∧
     LoadState tpath = ([CallLoad kind path], Val r)).
Proof.
  destruct (ValidTPath tpath) eqn:Hv.
  - right. pose proof Hv as Hv'.
    apply ValidTPath_true in Hv' as (Hlen & kind & Hk & Hin).
    destruct (Split_short tpath Hlen) as [[Hs _] | (k & path & Hs & -> & _ & Hp)];
      rewrite Hs in Hk; injection Hk as <-.
    + left. split; [done |]. unfold LoadState. rewrite Hv, Hs.
      unfold kinds in Hin.
      repeat (apply elem_of_cons in Hin as [-> | Hin]; [done |]).
      by apply elem_of_nil in Hin.
    + right. assert (tpath_of k path ∉ kinds) as Hnot.
      { intros Hbare%kinds_free. by apply tpath_of_not_free in Hbare. }
      unfold LoadState. rewrite Hv, Hs. unfold kinds in Hin.
      repeat (apply elem_of_cons in Hin as [-> | Hin];
              [eexists _, path, _; split; [done |]; split; [compute_done |];
               split; [done |]; reflexivity |]).
      by apply elem_of_nil in Hin.
  - left. split; [done |]. split.
    + intros [Hv' _]%ValidTPath_kind. by rewrite Hv in Hv'.
    + unfold LoadState. by rewrite Hv.
Qed.

(** X3: [LoadState] panics exactly on the bare kinds [src], [bin] and
    [repo]; it never exits the process, and never makes more than one
    loader call. *)
Theorem LoadState_outcomes `{Collaborators} (tpath : string) :
  (outcome (LoadState tpath) = Panicked ↔ tpath ∈ kinds) ∧
  (∀ code, outcome (LoadState tpath) ≠ Exited code) ∧
  (length (trace (LoadState tpath)) ≤ 1)%nat.
Proof.
  destruct (LoadState_cases tpath)
    as [(_ & Hnot & ->) | [(Hin & ->) | (kind & path & r & _ & _ & Hnot & ->)]];
    simpl; (split; [split; done | split; [done | lia]]).
Qed.


(** ** Package lookup *)

Lemma index_is_Some {A} (xs : list A) (i : Z) :
  is_Some (index xs i) → 0 ≤ i < Z.of_nat (length xs).
Proof.
  unfold index. case_decide; [| by intros [? ?]].
  intros Hi%lookup_lt_is_Some. lia.
Qed.

(** X4: on a snapshot whose name index points into its package sequence,
    [GetPackage] ends normally; for a known name it returns the package at
    the indexed position and that position, which is what [GetPackageIdx]
    returns; for an unknown name it returns the zero package and -1, where
    [GetPackageIdx] returns 0.  The returned position is -1 exactly when
    [PackageExists] is false. *)
Theorem GetPackage_found (s : State) (name : string) :
  index_in_range s →
  ∃ pkg idx,
    GetPackage s name = ([], Val (pkg, idx)) ∧
    (PackageExists s name = true →
       NameToSrcIdx s !! name = Some idx ∧ index (Packages s) idx = Some pkg
       ∧ GetPackageIdx s name = idx) ∧
    (PackageExists s name = false →
       pkg = no_package ∧ GetPackageIdx s name = 0) ∧
    (idx = -1 ↔ PackageExists s name = false).
Proof.
  intros Hwf. unfold GetPackage, GetPackageIdx, PackageExists, at_index.
  destruct (NameToSrcIdx s !! name) as [idx |] eqn:Hname.
  - pose proof (Hwf name idx Hname) as Hin. simpl in Hin.
    pose proof (index_is_Some _ _ Hin) as Hrange.
    destruct Hin as [pkg Hpkg]. exists pkg, idx. rewrite Hpkg.
    split; [done |]. rewrite bool_decide_eq_true_2 by eauto.
    split; [done |]. split; [done |]. split; [lia | done].
  - exists no_package, (-1). split; [done |].
    rewrite bool_decide_eq_false_2 by (by intros [? ?]). done.
Qed.

Lemma GetPackage_found_witness :
  GetPackage Scenario.newState "pkgN" = ([], Val (Scenario.pkgN, 2)) ∧
  GetPackage Scenario.newState "pkgX" = ([], Val (no_package, -1)) ∧
  GetPackageIdx Scenario.newState "pkgX" = GetPackageIdx Scenario.newState "pkgA".
Proof.
  destruct (GetPackage_found Scenario.newState "pkgN") as (pkg & idx & Hrun & Hyes & _);
    [compute_done |].
  destruct (GetPackage_found Scenario.newState "pkgX")
    as (pkg' & idx' & Hrun' & _ & Hno & _); [compute_done |].
  destruct Hyes as (Hname & Hpkg & _); [reflexivity |].
  destruct Hno as (-> & Hzero); [reflexivity |].
  split; [| split].
  - rewrite Hrun. injection Hname as <-. by injection Hpkg as <-.
  - rewrite Hrun'. do 3 f_equal.
    assert (GetPackage Scenario.newState "pkgX" = ([], Val (no_package, -1)))
      as Hcomp by reflexivity.
    rewrite Hcomp in Hrun'. by injection Hrun'.
  - rewrite Hzero. reflexivity.
Defined.

(** ** The diff engine, continued *)

Lemma name_indexed_checked s : name_indexed_check s → name_indexed s.
Proof.
  unfold name_indexed_check, name_indexed. rewrite Forall_forall.
  intros Hall i pkg Hi. apply (Hall (i, pkg)).
  apply elem_of_lookup_imap. eauto.
Qed.

Lemma range_from_ext {A S} (body body' : Z → A → S → M S) xs :
  (∀ idx x s, x ∈ xs → body idx x s = body' idx x s) →
  ∀ idx s, range_from body idx xs s = range_from body' idx xs s.
Proof.
  induction xs as [| x xs IH]; intros Hbody idx s; simpl; [done |].
  rewrite Hbody by left. apply bind_ext. intros s'. apply IH.
  intros idx' y s'' Hy. apply Hbody. by right.
Qed.

(** The loop of [Changed] panics when it meets a name indexed outside the
    old package sequence, and otherwise appends the prescribed Diffs. *)
Lemma range_from_Changed_cases old pkgs : ∀ idx res,
  range_from (Changed_body old) idx pkgs res =
    if decide (Exists (dangling old) pkgs) then ([], Panicked)
    else ([], Val (res ++ expected_from old idx pkgs)).
Proof.
  induction pkgs as [| pkg pkgs IH]; intros idx res;
    cbn [range_from expected_from].
  { rewrite decide_False by by intros ?%Exists_nil. by rewrite app_nil_r. }
  rewrite Changed_body_eq.
  destruct (NameToSrcIdx old !! Name pkg) as [i |] eqn:Hname.
  - destruct (index (Packages old) i) as [oldPkg |] eqn:Hold.
    + rewrite bind_ret, IH.
      destruct (decide (Exists (dangling old) pkgs)) as [Hex | Hnex].
      * rewrite decide_True; [done |]. by right.
      * rewrite decide_False; [by rewrite app_assoc |].
        intros [Hd | Hex]%Exists_cons; [| done].
        unfold dangling in Hd. by rewrite Hname, Hold in Hd.
    + rewrite decide_True; [done |]. left. unfold dangling.
      by rewrite Hname.
  - rewrite bind_ret, IH.
    destruct (decide (Exists (dangling old) pkgs)) as [Hex | Hnex].
    + rewrite decide_True; [done |]. by right.
    + rewrite decide_False; [by rewrite app_assoc |].
      intros [Hd | Hex]%Exists_cons; [| done].
      unfold dangling in Hd. by rewrite Hname in Hd.
Qed.

Lemma Changed_cases old cur :
  Changed old cur =
    if decide (Exists (dangling old) (Packages cur)) then ([], Panicked)
    else ([], Val (expected_from old 0 (Packages cur))).
Proof. apply (range_from_Changed_cases old (Packages cur) 0 []). Qed.

(** X7: [Changed] logs nothing and never exits the process; it panics
    exactly when the new snapshot has a package whose name the old name
    index sends outside the old package sequence. *)
Theorem Changed_panics (old cur : State) :
  trace (Changed old cur) = [] ∧
  (∀ code, outcome (Changed old cur) ≠ Exited code) ∧
  (outcome (Changed old cur) = Panicked ↔
     ∃ pkg i, pkg ∈ Packages cur ∧ NameToSrcIdx old !! Name pkg = Some i
              ∧ index (Packages old) i = None).
Proof.
  rewrite Changed_cases.
  destruct (decide (Exists (dangling old) (Packages cur))) as [Hex | Hnex]; simpl.
  - split; [done |]. split; [done |]. split; [| done]. intros _.
    apply Exists_exists in Hex as (pkg & Hin & Hd). unfold dangling in Hd.
    destruct (NameToSrcIdx old !! Name pkg) as [i |] eqn:Hname; [| done].
    eauto.
  - split; [done |]. split; [done |]. split; [done |].
    intros (pkg & i & Hin & Hname & Hold). destruct Hnex.
    apply Exists_exists. exists pkg. split; [done |]. unfold dangling.
    by rewrite Hname.
Qed.

Lemma expected_from_none old pkgs : ∀ idx,
  (∀ (k : nat) pkg, pkgs !! k = Some pkg →
     expected_diffs old (idx + Z.of_nat k) pkg = []) →
  expected_from old idx pkgs = [].
Proof.
  induction pkgs as [| pkg pkgs IH]; intros idx Hall; simpl; [done |].
  pose proof (Hall 0%nat pkg eq_refl) as Hhead.
  rewrite Z.add_0_r in Hhead. rewrite Hhead. apply IH.
  intros k pkg' Hk. replace (idx + 1 + Z.of_nat k) with (idx + Z.of_nat (S k))
    by lia. by apply Hall.
Qed.

Lemma Changed_unchanged (s : State) :
  name_indexed s → Changed s s = ([], Val []).
Proof.
  intros Hidx. rewrite Changed_cases. rewrite decide_False.
  - rewrite expected_from_none; [done |]. intros k pkg Hk.
    unfold expected_diffs. rewrite (Hidx k pkg Hk), Z.add_0_l, index_of_nat, Hk.
    by rewrite decide_True.
  - intros (pkg & Hin & Hd)%Exists_exists.
    apply list_elem_of_lookup in Hin as [k Hk]. unfold dangling in Hd.
    by rewrite (Hidx k pkg Hk), index_of_nat, Hk in Hd.
Qed.

(** X5: compared with itself, a snapshot whose name index sends every
    package name to the position of that package shows no change. *)
Theorem Changed_self (s : State) :
  name_indexed s → Changed s s = ([], Val []).
Proof. apply Changed_unchanged. Qed.

Lemma Changed_self_witness :
  Changed Scenario.newState Scenario.newState = ([], Val []).
Proof. apply Changed_self, name_indexed_checked. compute_done. Defined.

Lemma expected_from_added old pkgs : ∀ idx,
  (∀ pkg, pkg ∈ pkgs → NameToSrcIdx old !! Name pkg = None) →
  expected_from old idx pkgs
    = imap (λ k pkg, Diff_added (idx + Z.of_nat k) pkg) pkgs.
Proof.
  induction pkgs as [| pkg pkgs IH]; intros idx Hnone; simpl; [done |].
  unfold expected_diffs at 1. rewrite Hnone by left. simpl.
  rewrite Z.add_0_r. f_equal. rewrite IH by (intros; apply Hnone; by right).
  apply imap_ext. intros k pkg' _. simpl. f_equal. lia.
Qed.

(** X6: when the old snapshot knows none of the names of the new one (an
    empty old snapshot, say), [Changed] reports every package of the new
    snapshot, in order, each by a Diff without old side. *)
Theorem Changed_all_new (old cur : State) :
  (∀ pkg, pkg ∈ Packages cur → NameToSrcIdx old !! Name pkg = None) →
  Changed old cur
    = ([], Val (imap (λ k pkg, Diff_added (Z.of_nat k) pkg) (Packages cur))).
Proof.
  intros Hnone. rewrite Changed_cases, decide_False.
  - rewrite expected_from_added by done. do 2 f_equal.
  - intros (pkg & Hin & Hd)%Exists_exists. unfold dangling in Hd.
    by rewrite Hnone in Hd.
Qed.

Lemma Changed_all_new_witness :
  Changed Scenario.emptyState Scenario.newState
    = ([], Val (imap (λ k pkg, Diff_added (Z.of_nat k) pkg)
                  (Packages Scenario.newState))).
Proof. apply Changed_all_new. intros pkg _. reflexivity. Defined.

(** X8: [Changed] sees the old snapshot through the names of the new one
    only: two old snapshots that give the same answer for each of these
    names give the same Diffs, so a package that only the old snapshot has
    (a removed package) is never reported and changes nothing. *)
Theorem Changed_old_names (old old' cur : State) :
  (∀ pkg, pkg ∈ Packages cur →
     NameToSrcIdx old' !! Name pkg = NameToSrcIdx old !! Name pkg) →
  (∀ pkg i, pkg ∈ Packages cur → NameToSrcIdx old !! Name pkg = Some i →
     index (Packages old') i = index (Packages old) i) →
  Changed old' cur = Changed old cur.
Proof.
  intros Hnames Hpkgs. unfold Changed, range. apply range_from_ext.
  intros idx pkg res Hin. unfold Changed_body. rewrite Hnames by done.
  destruct (NameToSrcIdx old !! Name pkg) as [i |] eqn:Hname; [| done].
  unfold at_index. by rewrite (Hpkgs pkg i).
Qed.

Lemma Changed_old_names_witness :
  Changed Scenario.oldState ScenarioD.newState
    = Changed Scenario.emptyState ScenarioD.newState.
Proof.
  apply Changed_old_names.
  - intros pkg Hin. simpl in Hin.
    repeat (apply elem_of_cons in Hin as [-> | Hin]; [reflexivity |]).
    by apply elem_of_nil in Hin.
  - intros pkg i Hin. simpl in Hin.
    repeat (apply elem_of_cons in Hin as [-> | Hin]; [by vm_compute |]).
    by apply elem_of_nil in Hin.
Defined.

(** ** Runs of the push command, continued *)

Section MoreRuns.

Context `{Collaborators}.

(** X10: when the old snapshot cannot be loaded, be it for an invalid
    reference or for a loader error, the run logs the failure and exits
    with code 1; the new snapshot is not even looked at. *)
Theorem old_load_failure (flags : Flags) (oldTPath newTPath : string)
    (t : list Event) (err : string) :
  LoadState oldTPath = (t, Val (Err err)) →
  runPush flags [oldTPath; newTPath] =
    (t ++ [Log Fatal ("Failed to load old state " +:+ oldTPath +:+ ": "
                        +:+ err +:+ nl)],
     Exited 1).
Proof.
  intros Hload. unfold runPush, load_states.
  change (at_index [oldTPath; newTPath] 0) with (ret (A := string) oldTPath).
  change (at_index [oldTPath; newTPath] 1) with (ret (A := string) newTPath).
  rewrite !bind_ret, Hload. reflexivity.
Qed.

(** X11: when the new snapshot cannot be loaded, the run exits with code 1
    right after the old one was loaded, before any comparison. *)
Theorem new_load_failure (flags : Flags) (oldTPath newTPath : string)
    (oldState : State) (t_old t_new : list Event) (err : string) :
  LoadState oldTPath = (t_old, Val (Ok oldState)) →
  LoadState newTPath = (t_new, Val (Err err)) →
  runPush flags [oldTPath; newTPath] =
    (t_old ++ [Log Good ("Successfully parsed old state!" +:+ nl)] ++ t_new
       ++ [Log Fatal ("Failed to load new state " +:+ newTPath +:+ ": "
                        +:+ err +:+ nl)],
     Exited 1).
Proof.
  intros Hold Hnew. unfold runPush, load_states.
  change (at_index [oldTPath; newTPath] 0) with (ret (A := string) oldTPath).
  change (at_index [oldTPath; newTPath] 1) with (ret (A := string) newTPath).
  rewrite !bind_ret, Hold. simpl. rewrite Hnew. reflexivity.
Qed.

(** X12: when both references load the same snapshot, one whose name index
    sends every package name to its position, the run finds nothing to
    update and returns, whatever the flags: nothing is checked, ordered or
    published. *)
Theorem nothing_to_update (flags : Flags) (args : list string) (s : State)
    (t_load : list Event) :
  load_states args = (t_load, Val (s, s)) →
  name_indexed s →
  runPush flags args =
    (t_load ++ [ Log Info ("Diffing..." +:+ nl);
                 Log Info ("No packages to update. Exiting..." +:+ nl) ],
     Val tt).
Proof.
  intros Hload Hidx.
  rewrite (runPush_classified flags args s s t_load [] no_buckets);
    [done | done | by apply Changed_unchanged | done].
Qed.

(** *** What the flags change *)

Lemma stops_early_refl {A} (m : M A) : stops_early m m.
Proof. by left. Qed.

Lemma stops_early_bind {A B} (m1 m2 : M A) (f g : A → M B) :
  stops_early m1 m2 → (∀ a, stops_early (f a) (g a)) →
  stops_early (bind m1 f) (bind m2 g).
Proof.
  intros [<- | [Hout Hpre]] Hfg.
  - destruct m1 as [t [a | c | ]]; [| by left ..].
    rewrite !bind_Val. destruct (Hfg a) as [-> | [Hout Hpre]]; [by left |].
    right. split; [done |]. by apply prefix_app.
  - right. destruct m1 as [t1 o1]. simpl in Hout. subst o1. simpl.
    split; [done |]. rewrite trace_bind. by apply prefix_app_r.
Qed.

Lemma returns_early_bind {A} (m : M A) (f g : A → M unit) :
  (∀ a, returns_early (f a) (g a)) → returns_early (bind m f) (bind m g).
Proof.
  intros Hfg. destruct m as [t [a | c | ]]; [| by left ..].
  rewrite !bind_Val. destruct (Hfg a) as [-> | [Hout Hpre]]; [by left |].
  right. split; [done |]. by apply prefix_app.
Qed.

Lemma report_bad_force b dry :
  stops_early (report_bad (mkFlags false dry) b) (report_bad (mkFlags true dry) b).
Proof.
  rewrite !report_bad_run. case_decide; [by left |]. right. by split.
Qed.

Lemma report_unresolved_force newState unresolved dry :
  stops_early (report_unresolved (mkFlags false dry) newState unresolved)
    (report_unresolved (mkFlags true dry) newState unresolved).
Proof.
  rewrite !report_unresolved_run. case_decide; [by left |]. right. by split.
Qed.

(** X13: [--force] only ever lets a run go further.  For the same
    arguments and the same [--dry-run], the run without [--force] either
    is the run with it, or exits with code 1 at a point up to which the two
    have done the same. *)
Theorem force_goes_further (args : list string) (dry : bool) :
  stops_early (runPush (mkFlags false dry) args) (runPush (mkFlags true dry) args).
Proof.
  unfold runPush.
  apply stops_early_bind; [apply stops_early_refl | intros [oldState newState]].
  apply stops_early_bind; [apply stops_early_refl | intros _].
  apply stops_early_bind; [apply stops_early_refl | intros changes].
  apply stops_early_bind; [apply stops_early_refl | intros b].
  unfold push_classified.
  apply stops_early_bind; [apply report_bad_force | intros _].
  unfold push_reported.
  apply stops_early_bind; [apply stops_early_refl | intros _].
  case_decide; [apply stops_early_refl |].
  apply stops_early_bind; [| intros order; apply stops_early_refl].
  unfold compute_order.
  apply stops_early_bind; [apply stops_early_refl | intros unresolved].
  apply stops_early_bind; [apply report_unresolved_force | intros _].
  apply stops_early_refl.
Qed.

(** X14: a dry run is the beginning of the real run.  For the same
    arguments and the same [--force], the run with [--dry-run] either is
    the run without it, or returns at a point up to which the two have
    done the same. *)
Theorem dry_run_is_prefix (args : list string) (forced : bool) :
  returns_early (runPush (mkFlags forced true) args)
    (runPush (mkFlags forced false) args).
Proof.
  unfold runPush.
  apply returns_early_bind; intros [oldState newState].
  apply returns_early_bind; intros _.
  apply returns_early_bind; intros changes.
  apply returns_early_bind; intros b.
  unfold push_classified.
  apply (returns_early_bind (report_bad (mkFlags forced true) b)); intros _.
  unfold push_reported.
  apply returns_early_bind; intros _.
  case_decide; [by left |].
  apply (returns_early_bind (compute_order (mkFlags forced true) newState b)).
  intros order. right. split; [done |]. apply prefix_nil.
Qed.

(** *** Publishing *)

Lemma publish_one_run newState idx pkg :
  index (Packages newState) idx = Some pkg →
  publish_one newState idx =
    match Publish pkg with
    | Ok job => (published_lines pkg job, Val tt)
    | Err err => (refused_lines pkg err, Exited 1)
    end.
Proof.
  intros Hidx. unfold publish_one, at_index. rewrite Hidx, bind_ret.
  unfold log, emit. rewrite !bind_Val. by destruct (Publish pkg).
Qed.

(** The loop publishes the accepted packages one after the other. *)
Lemma publish_accepted_run newState order :
  positions (Packages newState) order →
  accepted (omap (index (Packages newState)) order) →
  for_each (publish_one newState) order
    = (accepted_lines (omap (index (Packages newState)) order), Val tt).
Proof.
  unfold positions, accepted, accepted_lines.
  induction order as [| v order IH]; intros Hpos Hacc; [done |].
  apply Forall_cons in Hpos as [[pkg Hv] Hpos]. simpl in Hacc.
  rewrite Hv in Hacc. simpl in Hacc.
  apply Forall_cons in Hacc as [[job Hjob] Hacc].
  rewrite for_each_cons, (publish_one_run _ _ pkg Hv), Hjob, bind_Val.
  rewrite IH by done. simpl. rewrite Hv. simpl. by rewrite Hjob.
Qed.

Lemma publish_calls_app t1 t2 :
  publish_calls (t1 ++ t2) = publish_calls t1 ++ publish_calls t2.
Proof. apply filter_app. Qed.

Lemma publish_calls_accepted pkgs :
  accepted pkgs → publish_calls (accepted_lines pkgs) = CallPublish <$> pkgs.
Proof.
  unfold accepted, accepted_lines. induction 1 as [| pkg pkgs [job Hjob] _ IH];
    [done |].
  rewrite bind_cons, publish_calls_app, IH, Hjob. done.
Qed.

(** X15: without [--dry-run], when the publisher accepts every package of
    the build order, the loop calls it once for each of them, in that
    order, logs the job of each and returns. *)
Theorem publish_in_order (flags : Flags) (newState : State) (order : list Z) :
  dryRun flags = false →
  positions (Packages newState) order →
  accepted (omap (index (Packages newState)) order) →
  publish_order flags newState order
    = (accepted_lines (omap (index (Packages newState)) order), Val tt) ∧
  publish_calls (trace (publish_order flags newState order))
    = CallPublish <$> omap (index (Packages newState)) order.
Proof.
  intros Hwet Hpos Hacc. unfold publish_order. rewrite Hwet.
  rewrite publish_accepted_run by done. split; [done |].
  by apply publish_calls_accepted.
Qed.

(** X16: the first package that the publisher refuses ends the run with
    exit code 1: the packages before it have been published, in order, the
    ones after it are not even looked up. *)
Theorem publish_fails_fast (flags : Flags) (newState : State)
    (done_ rest : list Z) (v : Z) (pkg : Package) (err : string) :
  dryRun flags = false →
  positions (Packages newState) done_ →
  accepted (omap (index (Packages newState)) done_) →
  index (Packages newState) v = Some pkg →
  Publish pkg = Err err →
  publish_order flags newState (done_ ++ v :: rest)
    = (accepted_lines (omap (index (Packages newState)) done_)
         ++ refused_lines pkg err,
       Exited 1) ∧
  publish_calls (trace (publish_order flags newState (done_ ++ v :: rest)))
    = CallPublish <$> (omap (index (Packages newState)) done_ ++ [pkg]).
Proof.
  intros Hwet Hpos Hacc Hv Herr. unfold publish_order. rewrite Hwet.
  assert (for_each (publish_one newState) (done_ ++ v :: rest)
          = (accepted_lines (omap (index (Packages newState)) done_)
               ++ refused_lines pkg err, Exited 1)) as ->.
  { clear Hwet. unfold positions, accepted, accepted_lines in *.
    induction done_ as [| u done_ IH]; simpl app.
    - rewrite for_each_cons, (publish_one_run _ _ pkg Hv), Herr. done.
    - apply Forall_cons in Hpos as [[p Hu] Hpos]. simpl in Hacc.
      rewrite Hu in Hacc. simpl in Hacc.
      apply Forall_cons in Hacc as [[job Hjob] Hacc].
      rewrite for_each_cons, (publish_one_run _ _ p Hu), Hjob, bind_Val.
      rewrite IH by done. simpl. rewrite Hu. simpl. by rewrite Hjob. }
  split; [done |]. cbn [trace fst].
  rewrite publish_calls_app, publish_calls_accepted, fmap_app by done.
  done.
Qed.

(** *** Findings that do not stop the run *)

(** X17: the downgrades are reported and nothing more: after the
    older-release report the run is what it would be without any
    downgrade; they never end it, with or without [--force]. *)
Theorem outdated_only_reported (flags : Flags) (newState : State) (b : Buckets) :
  push_reported flags newState b =
    ((if decide (outdated b = []) then [] else outdated_lines (outdated b))
       ++ trace (push_reported flags newState (without_outdated b)),
     outcome (push_reported flags newState (without_outdated b))).
Proof.
  unfold push_reported. rewrite !report_outdated_run, !bind_Val.
  cbn [without_outdated outdated bumped trace outcome fst snd].
  reflexivity.
Qed.

(** X18: an error of the lifting ends the run with exit code 1, after the
    list of the packages to update and before any sort, also with
    [--force]. *)
Theorem lift_failure (flags : Flags) (args : list string)
    (oldState newState : State) (t_load : list Event) (changes : list Diff)
    (b : Buckets) (err : string) :
  load_states args = (t_load, Val (oldState, newState)) →
  Changed oldState newState = ([], Val changes) →
  classify newState changes = ([], Val b) →
  bad b = [] ∨ force flags = true →
  bumped b ≠ [] →
  failing newState (bumped b) = [] ∨ force flags = true →
  LiftGraph (DepGraph newState) (bset_at (bset b)) = Err err →
  runPush flags args =
    (before_lift flags newState b t_load
       ++ [Log Fatal ("Failed to lift updated packages from dependency graph: "
                        +:+ err +:+ nl)],
     Exited 1).
Proof.
  intros Hload Hchanged Hclass Hbad Hbumped Hres Hlift.
  rewrite (runPush_bumped flags args oldState newState t_load changes b) by done.
  rewrite compute_order_continue by done.
  assert (lift_and_order newState b =
            (Log Good "The following packages will be updated:"
               :: name_lines (bumped b)
               ++ [ Log Plain nl;
                    Log Good ("Successfully generated dependency graph!" +:+ nl);
                    Log Fatal ("Failed to lift updated packages from dependency graph: "
                                 +:+ err +:+ nl) ],
             Exited 1)) as ->.
  { unfold lift_and_order, log, emit. cbv zeta.
    rewrite bind_Val, print_names_run, !bind_Val, Hlift. by simpl. }
  unfold before_lift. cbn [bind trace outcome fst snd].
  f_equal. rewrite <- !app_assoc. do 5 f_equal. simpl.
  by rewrite <- app_assoc.
Qed.

End MoreRuns.

(** ** Classification of the Diffs of [Changed] *)

Lemma length_omap_is_Some {A B} (f : A → option B) (l : list A) :
  Forall (λ x, is_Some (f x)) l → length (omap f l) = length l.
Proof.
  induction 1 as [| x l [y Hy] _ IH]; [done |].
  cbn [length]. rewrite <- IH. simpl. by rewrite Hy.
Qed.

(** Every Diff lands in at most one bucket. *)
Lemma length_classified pkgs changes : ∀ b,
  (length (bumped (classified pkgs changes b))
   + length (bad (classified pkgs changes b))
   + length (outdated (classified pkgs changes b))
   ≤ length (bumped b) + length (bad b) + length (outdated b) + length changes)%nat.
Proof.
  unfold classified. induction changes as [| diff changes IH]; intros b; simpl;
    [lia |].
  etrans; [apply IH |].
  destruct (index pkgs (Idx diff)) as [pkg |]; [| lia].
  unfold classify_step. repeat case_match; simpl; rewrite ?length_app; simpl; lia.
Qed.

Lemma positions_expected_from old idx pkgs :
  idx = 0 →
  positions pkgs (Idx <$> expected_from old idx pkgs).
Proof.
  intros ->. apply Forall_fmap, Forall_forall. intros d Hd.
  apply expected_from_Idx in Hd as (k & pkg & Hk & Hidx). simpl.
  rewrite Hidx, Z.add_0_l, index_of_nat. eauto.
Qed.

(** X9: on the Diffs that [Changed] returns the classification loop
    never panics and logs nothing.  [bumped] then holds the packages of
    the new-release Diffs, one for each and in their order, [bset] marks
    exactly the positions of these Diffs, and no Diff has put a package in
    more than one of [bumped], [bad] and [outdated]. *)
Theorem classify_Changed (old new : State) (changes : list Diff) :
  Changed old new = ([], Val changes) →
  ∃ b, classify new changes = ([], Val b) ∧
    bumped b = omap (λ diff, index (Packages new) (Idx diff))
                 (filter (λ diff, DiffPred.IsNewRel diff = true) changes) ∧
    length (bumped b)
      = length (filter (λ diff, DiffPred.IsNewRel diff = true) changes) ∧
    (∀ i, bset_at (bset b) i = true ↔
       ∃ diff, diff ∈ changes ∧ Idx diff = i ∧ DiffPred.IsNewRel diff = true) ∧
    (length (bumped b) + length (bad b) + length (outdated b)
     ≤ length changes)%nat.
Proof.
  intros [_ ->]%Changed_inv.
  set (changes := expected_from old 0 (Packages new)).
  assert (Hpos : positions (Packages new) (Idx <$> changes))
    by by apply positions_expected_from.
  exists (classified (Packages new) changes no_buckets).
  split; [by apply classify_from_run |].
  assert (Hb : bumped (classified (Packages new) changes no_buckets)
               = omap (λ diff, index (Packages new) (Idx diff))
                   (filter (λ diff, DiffPred.IsNewRel diff = true) changes))
    by by rewrite bumped_classified.
  split; [done |]. split.
  { rewrite Hb. apply length_omap_is_Some.
    unfold positions in Hpos. rewrite Forall_fmap in Hpos.
    rewrite Forall_forall in Hpos. apply Forall_forall.
    intros d [_ Hd]%list_elem_of_filter. by apply Hpos. }
  split.
  { intros i. rewrite bset_classified. split.
    - intros [Hnone | (d & Hd & Hi & Hnew & _)]; [done | eauto].
    - intros (d & Hd & Hi & Hnew). right. exists d. split; [done |].
      split; [done |]. split; [done |]. subst i.
      unfold positions in Hpos. rewrite Forall_fmap, Forall_forall in Hpos.
      by apply Hpos. }
  pose proof (length_classified (Packages new) changes no_buckets) as Hlen.
  simpl in Hlen. lia.
Qed.

Lemma classify_Changed_witness :
  ∃ b,
    classify Scenario.newState
      (expected_from Scenario.oldState 0 (Packages Scenario.newState))
      = ([], Val b) ∧
    bumped b = [Scenario.pkgA; Scenario.pkgN] ∧
    bset_at (bset b) 2 = true.
Proof.
  destruct (classify_Changed Scenario.oldState Scenario.newState
              (expected_from Scenario.oldState 0 (Packages Scenario.newState)))
    as (b & Hrun & Hbumped & _ & Hbset & _); [by vm_compute |].
  exists b. split; [exact Hrun |]. split.
  - rewrite Hbumped. by vm_compute.
  - apply Hbset. exists (Diff_added 2 Scenario.pkgN).
    split; [compute_done |]. split; reflexivity.
Defined.

(** ** Runs without panic *)

Section SafeRuns.

Context `{Collaborators}.

Lemma ends_well_bind {A B} (m : M A) (f : A → M B) :
  ends_well m → (∀ t a, m = (t, Val a) → ends_well (f a)) →
  ends_well (bind m f).
Proof.
  intros Hm Hf. destruct m as [t [a | c | ]].
  - rewrite bind_Val. destruct (Hf t a eq_refl) as [[b Hb] | Hc];
      [left; by exists b | by right].
  - destruct Hm as [[a' Ha] | Hc]; simpl in *; [done |].
    injection Hc as ->. by right.
  - destruct Hm as [[a' Ha] | Hc]; simpl in *; done.
Qed.

Lemma diagnose_cycles_exits {A} newState lifted err :
  (∀ cycles, StronglyConnectedComponents lifted = Ok cycles →
     Forall (λ c, nontrivial c → positions (Packages newState) c) cycles) →
  ∃ t, @diagnose_cycles _ A newState lifted err = (t, Exited 1).
Proof.
  intros Hvalid.
  destruct (StronglyConnectedComponents lifted) as [cycles | e] eqn:Hscc.
  - rewrite (diagnose_cycles_run newState lifted err cycles) by auto. eauto.
  - unfold diagnose_cycles. rewrite Hscc. eauto.
Qed.

Lemma publish_loop_ends_well newState order :
  positions (Packages newState) order →
  ends_well (for_each (publish_one newState) order).
Proof.
  unfold positions. induction 1 as [| v order [pkg Hv] _ IH].
  - left. by exists tt.
  - rewrite for_each_cons, (publish_one_run _ _ pkg Hv).
    destruct (Publish pkg); [by rewrite bind_Val | by right].
Qed.

(** From the lifting on, a run ends with exit code 1 or with a build order
    made of positions of the new snapshot. *)
Lemma lift_and_order_ends newState changes b :
  b = classified (Packages newState) changes no_buckets →
  (∀ g cycles, StronglyConnectedComponents g = Ok cycles → components_of g cycles) →
  (∃ t, lift_and_order newState b = (t, Exited 1)) ∨
  (∃ t order, lift_and_order newState b = (t, Val order)
              ∧ positions (Packages newState) order).
Proof.
  intros Hb Hscc.
  destruct (LiftGraph (DepGraph newState) (bset_at (bset b)))
    as [lifted | err] eqn:Hlift.
  - pose proof (positions_lifted newState changes b lifted Hb Hlift) as Hpos.
    rewrite (lift_and_order_run newState b lifted Hlift).
    unfold sort_or_diagnose.
    destruct (TopologicalSort lifted) as [order | err] eqn:Hsort.
    + right. apply TopologicalSort_Ok_order in Hsort as (_ & Hel & _).
      assert (positions (Packages newState) order) as Hord.
      { apply Forall_forall. intros v Hv. by apply Hpos, Hel. }
      rewrite bind_ret, print_order_run, bind_Val by done. eauto.
    + left. destruct (@diagnose_cycles_exits (list Z) newState lifted err)
        as [t Ht].
      { intros cycles Hc. eapply Forall_impl; [exact (Hscc _ _ Hc) |].
        intros c Hcv _. eapply Forall_impl; [exact Hcv |]. intros v Hv.
        by apply Hpos. }
      rewrite Ht. eauto.
  - left. unfold lift_and_order, log, emit. cbv zeta.
    rewrite bind_Val, print_names_run, !bind_Val, Hlift. eauto.
Qed.

(** X19: once both snapshots are loaded, with an old name index that
    points into the old package sequence and components made of vertices
    of the graph they are computed for, a run never panics: it returns or
    exits with code 1. *)
Theorem runPush_ends_well (flags : Flags) (args : list string)
    (oldState newState : State) (t_load : list Event) :
  load_states args = (t_load, Val (oldState, newState)) →
  index_in_range oldState →
  (∀ g cycles, StronglyConnectedComponents g = Ok cycles → components_of g cycles) →
  outcome (runPush flags args) = Val tt ∨ outcome (runPush flags args) = Exited 1.
Proof.
  intros Hload Hwf Hscc.
  destruct (Changed_classify oldState newState Hwf)
    as (changes & Hchanged & _ & Hclass).
  set (b := classified (Packages newState) changes no_buckets) in *.
  rewrite (runPush_classified flags args oldState newState t_load changes b)
    by done.
  cbn [outcome snd].
  assert (Hrest : ends_well (push_reported flags newState b)).
  { unfold push_reported. apply ends_well_bind.
    { rewrite report_outdated_run. left. by exists tt. }
    intros _ _ _. case_decide; [left; by exists tt |].
    apply ends_well_bind.
    - rewrite compute_order_run.
      destruct (lift_and_order_ends newState changes b eq_refl Hscc)
        as [[t Ht] | (t & order & Ht & _)]; rewrite Ht;
        repeat case_match; (by right) || (left; by eexists).
    - intros t order Horder. unfold publish_order.
      destruct (dryRun flags); [left; by exists tt |].
      apply publish_loop_ends_well.
      rewrite compute_order_run in Horder.
      destruct (lift_and_order_ends newState changes b eq_refl Hscc)
        as [[t' Ht] | (t' & order' & Ht & Hpos)]; rewrite Ht in Horder;
        repeat case_match; by simplify_eq/=. }
  assert (Hall : ends_well (push_classified flags newState b)).
  { rewrite push_classified_run. repeat case_match; [done | | by right].
    destruct Hrest as [[a Ha] | Hc]; [left; by exists a | by right]. }
  destruct Hall as [[[] Ha] | Hc]; [by left | by right].
Qed.

End SafeRuns.

(** ** Exit codes *)

Section ExitCodes.

Context `{Collaborators}.

Lemma exits_one_val {A} t (a : A) : exits_one (t, Val a).
Proof. by intros code. Qed.

Lemma exits_one_panic {A} t : exits_one (A := A) (t, Panicked).
Proof. by intros code. Qed.

Lemma exits_one_exit {A} t : exits_one (A := A) (t, Exited 1).
Proof. intros code. simpl. by intros [= <-]. Qed.

Lemma exits_one_bind {A B} (m : M A) (f : A → M B) :
  exits_one m → (∀ a, exits_one (f a)) → exits_one (bind m f).
Proof.
  intros Hm Hf code. destruct m as [t [a | c | ]]; simpl.
  - specialize (Hf a code). destruct (f a) as [t' o]. exact Hf.
  - intros [= <-]. by apply (Hm c).
  - done.
Qed.

Lemma exits_one_range_from {A S} (body : Z → A → S → M S) xs :
  (∀ idx x s, exits_one (body idx x s)) →
  ∀ idx s, exits_one (range_from body idx xs s).
Proof.
  intros Hbody. induction xs as [| x xs IH]; intros idx s; simpl.
  - apply exits_one_val.
  - apply exits_one_bind; [apply Hbody | intros; apply IH].
Qed.

Ltac exits_steps :=
  repeat first
    [ match goal with H : _ |- exits_one _ => apply H end
    | apply exits_one_val | apply exits_one_panic | apply exits_one_exit
    | apply exits_one_bind; [| intros ?]
    | apply exits_one_range_from; intros ? ? ?
    | case_match ].

Lemma exits_one_LoadState tpath : exits_one (LoadState tpath).
Proof.
  unfold LoadState, at_index, emit, ret, panic. exits_steps.
Qed.

Lemma exits_one_Changed oldState newState : exits_one (Changed oldState newState).
Proof.
  unfold Changed, range, Changed_body, at_index, ret, panic. exits_steps.
Qed.

Lemma exits_one_classify newState changes : exits_one (classify newState changes).
Proof.
  unfold classify, range, classify_body, at_index, ret, panic. exits_steps.
Qed.

Lemma exits_one_print_names pkgs : exits_one (print_names pkgs).
Proof. rewrite print_names_run. apply exits_one_val. Qed.

Lemma exits_one_compute_order flags newState b :
  exits_one (compute_order flags newState b).
Proof.
  pose proof exits_one_print_names as Hnames.
  unfold compute_order, collect_unresolved, report_unresolved,
    report_unresolved_pkg, lift_and_order, sort_or_diagnose, diagnose_cycles,
    report_cycle, print_order, for_each, range, or_fatal, fatalf, log, emit,
    at_index, osExit, ret, panic.
  exits_steps.
Qed.

(** X20: 1 is the only exit code of the command: whatever the arguments,
    the flags and the collaborators, a run that exits the process does so
    with code 1. *)
Theorem exit_code_is_one (flags : Flags) (args : list string) (code : Z) :
  outcome (runPush flags args) = Exited code → code = 1.
Proof.
  revert code. fold (exits_one (runPush flags args)).
  pose proof exits_one_LoadState as Hload.
  pose proof exits_one_Changed as Hchanged.
  pose proof exits_one_classify as Hclass.
  pose proof exits_one_print_names as Hnames.
  pose proof exits_one_compute_order as Horder.
  unfold runPush, load_states, push_classified, push_reported, report_bad,
    report_outdated, publish_order, publish_one, for_each, range, or_fatal,
    fatalf, log, emit, at_index, osExit, ret, panic.
  exits_steps.
Qed.

End ExitCodes.

(** ** The further scenarios, run *)

Lemma old_load_failure_witness :
  @runPush Scenario.collaborators init ["tar:old"; "src:new"] =
    ([Log Fatal ("Failed to load old state tar:old: " +:+ InvalidTPathError +:+ nl)],
     Exited 1) ∧
  @runPush Scenario.collaborators init ["src:gone"; "src:new"] =
    ([CallLoad "src" "gone";
      Log Fatal ("Failed to load old state src:gone: no such snapshot" +:+ nl)],
     Exited 1).
Proof.
  split.
  - apply (@old_load_failure Scenario.collaborators init "tar:old" "src:new" []).
    reflexivity.
  - apply (@old_load_failure Scenario.collaborators init "src:gone" "src:new"
             [CallLoad "src" "gone"]).
    reflexivity.
Defined.

Lemma new_load_failure_witness :
  @runPush Scenario.collaborators init ["src:old"; "repo:gone"] =
    ([CallLoad "src" "old"; Log Good ("Successfully parsed old state!" +:+ nl);
      CallLoad "repo" "gone";
      Log Fatal ("Failed to load new state repo:gone: no such snapshot" +:+ nl)],
     Exited 1).
Proof.
  apply (@new_load_failure Scenario.collaborators init "src:old" "repo:gone"
           Scenario.oldState [CallLoad "src" "old"] [CallLoad "repo" "gone"]);
    reflexivity.
Defined.

Lemma nothing_to_update_witness :
  @runPush Scenario.collaborators (mkFlags true false) ["src:new"; "bin:new"] =
    ([CallLoad "src" "new"; Log Good ("Successfully parsed old state!" +:+ nl);
      CallLoad "bin" "new"; Log Good ("Successfully parsed new state!" +:+ nl);
      Log Info ("Diffing..." +:+ nl);
      Log Info ("No packages to update. Exiting..." +:+ nl)],
     Val tt).
Proof.
  apply (@nothing_to_update Scenario.collaborators (mkFlags true false)
           ["src:new"; "bin:new"] Scenario.newState
           [CallLoad "src" "new"; Log Good ("Successfully parsed old state!" +:+ nl);
            CallLoad "bin" "new"; Log Good ("Successfully parsed new state!" +:+ nl)]).
  - by vm_compute.
  - apply name_indexed_checked. compute_done.
Defined.

Lemma publish_in_order_witness :
  publish_calls
    (trace (@publish_order ScenarioD.collaborators (mkFlags false false)
              ScenarioD.newState [1; 0]))
    = [CallPublish ScenarioD.pkgF; CallPublish ScenarioD.pkgE].
Proof.
  destruct (@publish_in_order ScenarioD.collaborators (mkFlags false false)
              ScenarioD.newState [1; 0]) as [_ Hcalls].
  - reflexivity.
  - compute_done.
  - repeat constructor; by exists (mkJob 1).
  - exact Hcalls.
Defined.

Lemma publish_fails_fast_witness :
  outcome (@publish_order ScenarioF.collaborators (mkFlags false false)
             ScenarioF.newState [1; 0; 2]) = Exited 1 ∧
  publish_calls
    (trace (@publish_order ScenarioF.collaborators (mkFlags false false)
              ScenarioF.newState [1; 0; 2]))
    = [CallPublish ScenarioD.pkgF; CallPublish ScenarioD.pkgE].
Proof.
  destruct (@publish_fails_fast ScenarioF.collaborators (mkFlags false false)
              ScenarioF.newState [1] [2] 0 ScenarioD.pkgE "queue full")
    as [Hrun Hcalls].
  - reflexivity.
  - compute_done.
  - repeat constructor. by exists (mkJob 7).
  - reflexivity.
  - reflexivity.
  - split; [| exact Hcalls]. simpl app in Hrun. by rewrite Hrun.
Defined.

Lemma lift_failure_witness :
  ∃ pre,
    @runPush ScenarioF.collaborators (mkFlags true false) ["src:old"; "src:new"] =
      (pre ++ [Log Fatal ("Failed to lift updated packages from dependency graph: "
                            +:+ "edge to a position outside the graph" +:+ nl)],
       Exited 1).
Proof.
  set (changes := expected_from ScenarioD.oldState 0 (Packages ScenarioF.newState)).
  set (b := classified (Packages ScenarioF.newState) changes no_buckets).
  eexists.
  apply (@lift_failure ScenarioF.collaborators (mkFlags true false)
           ["src:old"; "src:new"] ScenarioD.oldState ScenarioF.newState
           (trace (@load_states ScenarioF.collaborators ["src:old"; "src:new"]))
           changes b).
  - by vm_compute.
  - by vm_compute.
  - by vm_compute.
  - left. by vm_compute.
  - by vm_compute.
  - left. by vm_compute.
  - by vm_compute.
Defined.

Lemma runPush_ends_well_witness :
  outcome (@runPush Scenario.collaborators (mkFlags true false)
             ["src:old"; "bin:new"]) = Val tt ∨
  outcome (@runPush Scenario.collaborators (mkFlags true false)
             ["src:old"; "bin:new"]) = Exited 1.
Proof.
  apply (@runPush_ends_well Scenario.collaborators (mkFlags true false)
           ["src:old"; "bin:new"] Scenario.oldState Scenario.newState
           (trace (@load_states Scenario.collaborators ["src:old"; "bin:new"]))).
  - by vm_compute.
  - compute_done.
  - intros g cycles [= <-]. constructor.
Defined.

Lemma exit_code_is_one_witness :
  outcome (@runPush Scenario.collaborators init ["src:old"; "bin:new"])
    = Exited 1 ∧ (1 : Z) = 1.
Proof.
  assert (outcome (@runPush Scenario.collaborators init ["src:old"; "bin:new"])
          = Exited 1) as Hrun by by vm_compute.
  split; [exact Hrun |].
  exact (@exit_code_is_one Scenario.collaborators init ["src:old"; "bin:new"] 1
           Hrun).
Defined.
